(** * MerkleTree.py: a shallow embedding and its properties

    The class [MerkleTree] of [MerkleTree.py] hashes a list of records with
    SHA-256, folds the leaf digests level by level into a root, and offers
    proof generation, proof verification, an integrity check and a
    mutation test.  This file embeds the class method by method and proves
    (or refutes) the properties stated for it. *)

From Stdlib Require Import ZArith List Bool Lia String Ascii DecimalString.
From stdpp Require Import base list.
From Equations Require Import Equations.
Import ListNotations.
Local Open Scope Z_scope.

(** ** Python exceptions and results *)

Inductive exn : Type :=
| TypeError
| IndexError
| UnicodeEncodeError.

Inductive result (A : Type) : Type :=
| Ok (a : A)
| Raise (e : exn).
Arguments Ok {A} a.
Arguments Raise {A} e.

Definition rbind {A B : Type} (m : result A) (k : A -> result B) : result B :=
  match m with
  | Ok a => k a
  | Raise e => Raise e
  end.

Notation "'do' x <- m ; k" := (rbind m (fun x => k))
  (at level 10, x name, m at level 100, k at level 200).

(** ** hashlib.sha256 (FIPS 180-4), on bytes held as integers in [0, 256) *)

Module SHA256.

Definition wrap32 (x : Z) : Z := x mod 2 ^ 32.

Definition plus32 (x y : Z) : Z := wrap32 (x + y).

Definition rotr (n x : Z) : Z :=
  Z.lor (Z.shiftr x n) (wrap32 (Z.shiftl x (32 - n))).

Definition not32 (x : Z) : Z := Z.lxor x 0xffffffff.

Definition choose (e f g : Z) : Z :=
  Z.lxor (Z.land e f) (Z.land (not32 e) g).

Definition majority (a b c : Z) : Z :=
  Z.lxor (Z.lxor (Z.land a b) (Z.land a c)) (Z.land b c).

Definition big_sigma0 (a : Z) : Z :=
  Z.lxor (Z.lxor (rotr 2 a) (rotr 13 a)) (rotr 22 a).

Definition big_sigma1 (e : Z) : Z :=
  Z.lxor (Z.lxor (rotr 6 e) (rotr 11 e)) (rotr 25 e).

Definition small_sigma0 (w : Z) : Z :=
  Z.lxor (Z.lxor (rotr 7 w) (rotr 18 w)) (Z.shiftr w 3).

Definition small_sigma1 (w : Z) : Z :=
  Z.lxor (Z.lxor (rotr 17 w) (rotr 19 w)) (Z.shiftr w 10).

(** The first sixty-four primes. *)
Definition primes : list Z :=
  [2; 3; 5; 7; 11; 13; 17; 19; 23; 29; 31; 37; 41; 43; 47; 53;
   59; 61; 67; 71; 73; 79; 83; 89; 97; 101; 103; 107; 109; 113; 127; 131;
   137; 139; 149; 151; 157; 163; 167; 173; 179; 181; 191; 193; 197; 199;
   211; 223; 227; 229; 233; 239; 241; 251; 257; 263; 269; 271; 277; 281;
   283; 293; 307; 311].

(** Integer cube root: the largest [r] below [2 ^ bits] whose cube does not
    exceed [x], found one bit at a time from the top. *)
Fixpoint cube_root_bits (bits : nat) (x r : Z) : Z :=
  match bits with
  | O => r
  | S bits' =>
      let candidate := r + 2 ^ Z.of_nat bits' in
      cube_root_bits bits' x
        (if candidate * candidate * candidate <=? x then candidate else r)
  end.

(** The first 32 bits of the fractional part of the cube root of [p]. *)
Definition cube_root_fraction (p : Z) : Z :=
  wrap32 (cube_root_bits 36 (p * 2 ^ 96) 0).

(** The first 32 bits of the fractional part of the square root of [p]. *)
Definition square_root_fraction (p : Z) : Z :=
  wrap32 (Z.sqrt (p * 2 ^ 64)).

(** Round constants K[0..63], from the cube roots of the primes. *)
Definition round_constants : list Z :=
  Eval vm_compute in map cube_root_fraction primes.

(** The eight working variables a..h, also the chaining value. *)
Record regs : Type := Regs {
  ra : Z; rb : Z; rc : Z; rd : Z; re : Z; rf : Z; rg : Z; rh : Z }.

(** The initial chaining value, from the square roots of the first eight
    primes. *)
Definition initial_regs : regs :=
  Eval vm_compute in
    Regs (square_root_fraction 2) (square_root_fraction 3)
         (square_root_fraction 5) (square_root_fraction 7)
         (square_root_fraction 11) (square_root_fraction 13)
         (square_root_fraction 17) (square_root_fraction 19).

(** Message padding: a 1 bit, zeros up to 56 mod 64 bytes, then the bit
    length as a 64-bit big-endian integer. *)
Fixpoint big_endian (n : nat) (x : Z) : list Z :=
  match n with
  | O => []
  | S n' => big_endian n' (x / 256) ++ [x mod 256]
  end.

Definition pad (msg : list Z) : list Z :=
  let len := Z.of_nat (length msg) in
  let zeros := Z.to_nat ((55 - len) mod 64) in
  msg ++ [0x80] ++ repeat 0 zeros ++ big_endian 8 (8 * len).

Fixpoint words_of_bytes (n : nat) (bs : list Z) : list Z :=
  match n, bs with
  | S n', b0 :: b1 :: b2 :: b3 :: rest =>
      (b0 * 16777216 + b1 * 65536 + b2 * 256 + b3) :: words_of_bytes n' rest
  | _, _ => []
  end.

(** The message schedule is kept as a sliding window of sixteen words:
    its head is W[t], and W[t+16] is appended for the rounds to come. *)
Definition slide (win : list Z) : list Z :=
  match win with
  | w0 :: tail =>
      let w1 := nth 0 tail 0 in
      let w9 := nth 8 tail 0 in
      let w14 := nth 13 tail 0 in
      tail ++ [plus32 (plus32 (plus32 (small_sigma1 w14) w9) (small_sigma0 w1)) w0]
  | [] => []
  end.

Definition round (st : regs * list Z) (k : Z) : regs * list Z :=
  let (r, win) := st in
  let w := nth 0 win 0 in
  let t1 := plus32 (plus32 (plus32 (plus32 (rh r) (big_sigma1 (re r)))
                                   (choose (re r) (rf r) (rg r))) k) w in
  let t2 := plus32 (big_sigma0 (ra r)) (majority (ra r) (rb r) (rc r)) in
  (Regs (plus32 t1 t2) (ra r) (rb r) (rc r) (plus32 (rd r) t1) (re r) (rf r) (rg r),
   slide win).

Definition compress (cv : regs) (block : list Z) : regs :=
  let r := fst (fold_left round round_constants (cv, words_of_bytes 16 block)) in
  Regs (plus32 (ra cv) (ra r)) (plus32 (rb cv) (rb r))
       (plus32 (rc cv) (rc r)) (plus32 (rd cv) (rd r))
       (plus32 (re cv) (re r)) (plus32 (rf cv) (rf r))
       (plus32 (rg cv) (rg r)) (plus32 (rh cv) (rh r)).

Fixpoint blocks (n : nat) (cv : regs) (bs : list Z) : regs :=
  match n with
  | O => cv
  | S n' => blocks n' (compress cv (firstn 64 bs)) (skipn 64 bs)
  end.

(** [digest msg] is the 32-byte value of [hashlib.sha256(msg).digest()]. *)
Definition digest (msg : list Z) : list Z :=
  let padded := pad msg in
  let r := blocks (length padded / 64)%nat initial_regs padded in
  flat_map (big_endian 4)
    [ra r; rb r; rc r; rd r; re r; rf r; rg r; rh r].

(** Lowercase hexadecimal digit, as a code point. *)
Definition hex_digit (d : Z) : Z :=
  if d <? 10 then 48 + d else 87 + d.

(** [hexdigest msg] is [hashlib.sha256(msg).hexdigest()], a [str] of 64
    code points. *)
Definition hexdigest (msg : list Z) : list Z :=
  flat_map (fun b => [hex_digit (b / 16); hex_digit (b mod 16)]) (digest msg).

End SHA256.

(** ** Python values used by the class *)

(** A [str] is its sequence of code points; [bytes] is a sequence of
    integers in [0, 256). *)
Abbreviation pystr := (list Z) (only parsing).
Abbreviation pybytes := (list Z) (only parsing).

(** A literal of ASCII characters as a [str]. *)
Definition ascii_text (s : string) : pystr :=
  map (fun c => Z.of_nat (nat_of_ascii c)) (list_ascii_of_string s).

(** [len(l)] *)
Definition len {A : Type} (l : list A) : Z := Z.of_nat (length l).

(** [l[i]]: negative indices count from the end, anything outside
    [-len(l), len(l)) raises IndexError. *)
Definition getitem {A : Type} (l : list A) (i : Z) : result A :=
  let j := if i <? 0 then i + len l else i in
  if (0 <=? j) && (j <? len l) then
    match l !! Z.to_nat j with
    | Some x => Ok x
    | None => Raise IndexError
    end
  else Raise IndexError.

(** [l[i] = v] on a list object, giving the updated contents. *)
Definition setitem {A : Type} (l : list A) (i : Z) (v : A) : result (list A) :=
  let j := if i <? 0 then i + len l else i in
  if (0 <=? j) && (j <? len l) then Ok (<[Z.to_nat j := v]> l)
  else Raise IndexError.

(** [range(start, stop, step)] for a non-zero step. *)
Definition py_range (start stop step : Z) : list Z :=
  let count :=
    if 0 <? step then (stop - start + step - 1) / step
    else (start - stop - step - 1) / (- step) in
  map (fun k => start + step * Z.of_nat k) (seq 0 (Z.to_nat count)).

(** [for x in xs: s = body(x, s)], where the body may raise. *)
Fixpoint for_loop {S : Type} (xs : list Z) (body : Z -> S -> result S) (s : S)
  : result S :=
  match xs with
  | [] => Ok s
  | x :: rest => do s' <- body x s; for_loop rest body s'
  end.

(** [s.encode('utf-8')]: surrogates cannot be encoded. *)
Definition utf8_codepoint (c : Z) : result pybytes :=
  if (0 <=? c) && (c <? 0x80) then Ok [c]
  else if (0x80 <=? c) && (c <? 0x800) then
    Ok [0xc0 + c / 64; 0x80 + c mod 64]
  else if (0x800 <=? c) && (c <? 0xd800) || (0xe000 <=? c) && (c <? 0x10000) then
    Ok [0xe0 + c / 4096; 0x80 + (c / 64) mod 64; 0x80 + c mod 64]
  else if (0x10000 <=? c) && (c <? 0x110000) then
    Ok [0xf0 + c / 262144; 0x80 + (c / 4096) mod 64;
        0x80 + (c / 64) mod 64; 0x80 + c mod 64]
  else Raise UnicodeEncodeError.

Fixpoint utf8_encode (s : pystr) : result pybytes :=
  match s with
  | [] => Ok []
  | c :: rest =>
      do b <- utf8_codepoint c;
      do bs <- utf8_encode rest;
      Ok (b ++ bs)
  end.

(** *** json.dumps(d, sort_keys=True) on flat mappings

    The mappings modelled have [str] keys and values that are [None], a
    [bool], an [int] or a [str]; a [dict] is its list of items in
    insertion order. *)
Inductive jvalue : Type :=
| JNull
| JBool (b : bool)
| JInt (n : Z)
| JStr (s : pystr).

Abbreviation pydict := (list (list Z * jvalue)) (only parsing).

Definition hex4 (n : Z) : pystr :=
  [SHA256.hex_digit (n / 4096 mod 16); SHA256.hex_digit (n / 256 mod 16);
   SHA256.hex_digit (n / 16 mod 16); SHA256.hex_digit (n mod 16)].

(** A backslash, the letter u and four hexadecimal digits. *)
Definition u_escape (n : Z) : pystr := [92; 117] ++ hex4 n.

(** The replacement of one character under [ensure_ascii=True]. *)
Definition json_escape_char (c : Z) : pystr :=
  if c =? 34 then [92; 34]
  else if c =? 92 then [92; 92]
  else if c =? 8 then [92; 98]
  else if c =? 12 then [92; 102]
  else if c =? 10 then [92; 110]
  else if c =? 13 then [92; 114]
  else if c =? 9 then [92; 116]
  else if (32 <=? c) && (c <=? 126) then [c]
  else if c <? 0x10000 then u_escape c
  else
    let n := c - 0x10000 in
    u_escape (Z.lor 0xd800 (Z.land (Z.shiftr n 10) 0x3ff))
      ++ u_escape (Z.lor 0xdc00 (Z.land n 0x3ff)).

Definition json_string (s : pystr) : pystr :=
  [34] ++ flat_map json_escape_char s ++ [34].

Definition json_value (v : jvalue) : pystr :=
  match v with
  | JNull => ascii_text "null"
  | JBool true => ascii_text "true"
  | JBool false => ascii_text "false"
  | JInt n => ascii_text (NilZero.string_of_int (Z.to_int n))
  | JStr s => json_string s
  end.

(** [a <= b] on [str]: lexicographic on code points. *)
Fixpoint str_leb (a b : pystr) : bool :=
  match a, b with
  | [], _ => true
  | _ :: _, [] => false
  | x :: a', y :: b' =>
      if x <? y then true else if y <? x then false else str_leb a' b'
  end.

Fixpoint insert_item (kv : pystr * jvalue) (items : pydict) : pydict :=
  match items with
  | [] => [kv]
  | kv' :: rest =>
      if str_leb (fst kv) (fst kv') then kv :: items
      else kv' :: insert_item kv rest
  end.

(** [sorted(d.items())] *)
Definition sorted_items (d : pydict) : pydict := fold_right insert_item [] d.

Fixpoint join_items (items : pydict) : pystr :=
  match items with
  | [] => []
  | [(k, v)] => json_string k ++ ascii_text ": " ++ json_value v
  | (k, v) :: rest =>
      json_string k ++ ascii_text ": " ++ json_value v
        ++ ascii_text ", " ++ join_items rest
  end.

Definition json_dumps_sort_keys (d : pydict) : pystr :=
  ascii_text "{" ++ join_items (sorted_items d) ++ ascii_text "}".

(** A record handed to the tree: a [dict], a [str], or any other object,
    which the class only ever reads through [str(data)]. *)
Inductive record : Type :=
| RDict (d : pydict)
| RStr (s : pystr)
| ROther (str_of_data : pystr).

(** The argument given to [hashlib.sha256]: only a bytes-like object is
    accepted, a [str] raises TypeError. *)
Inductive hash_arg : Type :=
| ArgStr (s : pystr)
| ArgBytes (b : pybytes).

Definition hashlib_sha256_hexdigest (data : hash_arg) : result pystr :=
  match data with
  | ArgBytes b => Ok (SHA256.hexdigest b)
  | ArgStr _ => Raise TypeError
  end.

(** ** The class MerkleTree *)

(** The two attributes of an instance.  [self.tree[0]] is the list object
    [self.leaves] itself ([_build_tree] starts from [tree = [leaves]]). *)
Record MerkleTree : Type := {
  leaves : list pystr;
  tree : list (list pystr) }.

(** One entry of a proof: [{'hash': ..., 'position': ...}]. *)
Record proof_step : Type := {
  hash : pystr;
  position : pystr }.

Definition str_left : pystr := ascii_text "left".
Definition str_right : pystr := ascii_text "right".

(** [_hash_data(self, data)] *)
Definition _hash_data (data : record) : result pystr :=
  do data' <-
    match data with
    | RDict d => Ok (ArgStr (json_dumps_sort_keys d))
    | RStr s => do b <- utf8_encode s; Ok (ArgBytes b)
    | ROther text => do b <- utf8_encode text; Ok (ArgBytes b)
    end;
  hashlib_sha256_hexdigest data'.

(** The body of the [for i in range(0, len(current_level), 2)] loop of
    [_build_tree]: one pair is hashed and appended to [next_level]. *)
Definition pair_body (current_level : list pystr) (i : Z)
    (next_level : list pystr) : result (list pystr) :=
  do left <- getitem current_level i;
  do right <- (if i + 1 <? len current_level
               then getitem current_level (i + 1) else Ok left);
  let combined := left ++ right in
  do h <- _hash_data (RStr combined);
  Ok (next_level ++ [h]).

(** The whole [for] loop, giving [next_level]. *)
Definition next_level_of (current_level : list pystr) : result (list pystr) :=
  for_loop (py_range 0 (len current_level) 2) (pair_body current_level) [].

Definition inspect {A : Type} (a : A) : {b : A | a = b} := exist _ a eq_refl.

(** The [while len(current_level) > 1] loop of [_build_tree]. *)
Equations? build_loop (tree : list (list pystr)) (current_level : list pystr)
  : result (list (list pystr)) by wf (length current_level) lt :=
  build_loop tree current_level with inspect (1 <? len current_level) := {
    | exist _ false _ => Ok tree
    | exist _ true Hlen with inspect (next_level_of current_level) := {
        | exist _ (Raise e) _ => Raise e
        | exist _ (Ok next_level) Hnext =>
            build_loop (tree ++ [next_level]) next_level } }.
Proof.
  assert (Hgrow : forall xs acc out,
    for_loop xs (pair_body current_level) acc = Ok out ->
    length out = (length acc + length xs)%nat).
  { induction xs as [|x xs IH]; intros acc out; simpl.
    - intros [= <-]. lia.
    - unfold pair_body at 1.
      destruct (getitem current_level x) as [l|]; simpl; [|discriminate].
      destruct (if x + 1 <? len current_level
                then getitem current_level (x + 1) else Ok l) as [r|];
        simpl; [|discriminate].
      destruct (_hash_data (RStr (l ++ r))) as [h|]; simpl; [|discriminate].
      intros Hout. apply IH in Hout. rewrite length_app in Hout. simpl in Hout. lia. }
  unfold next_level_of in Hnext. apply Hgrow in Hnext.
  unfold py_range in Hnext.
  rewrite length_map, length_seq in Hnext. simpl in Hnext.
  apply Z.ltb_lt in Hlen. unfold len in *.
  assert ((Z.of_nat (length current_level) - 0 + 2 - 1) / 2
          < Z.of_nat (length current_level)).
  { apply Z.div_lt_upper_bound; lia. }
  lia.
Qed.

(** [_build_tree(self, leaves)] *)
Definition _build_tree (leaves : list pystr) : result (list (list pystr)) :=
  build_loop [leaves] leaves.

(** The list comprehension [[f(x) for x in xs]]. *)
Fixpoint comprehension {A B : Type} (f : A -> result B) (xs : list A)
  : result (list B) :=
  match xs with
  | [] => Ok []
  | x :: rest => do y <- f x; do ys <- comprehension f rest; Ok (y :: ys)
  end.

(** [MerkleTree(data_list)], that is [__init__]. *)
Definition __init__ (data_list : list record) : result MerkleTree :=
  do leaves <- comprehension _hash_data data_list;
  do tree <- _build_tree leaves;
  Ok {| leaves := leaves; tree := tree |}.

(** [get_root(self)]: [None] is the absent root. *)
Definition get_root (self : MerkleTree) : result (option pystr) :=
  match tree self with
  | [] => Ok None
  | _ :: _ =>
      do top <- getitem (tree self) (-1);
      do root <- getitem top 0;
      Ok (Some root)
  end.

Definition get_tree_height (self : MerkleTree) : Z := len (tree self).

(** The body of the [for level in range(len(self.tree) - 1)] loop of
    [get_proof], on the pair of the running [index] and [proof]. *)
Definition proof_body (self : MerkleTree) (level : Z)
    (st : Z * list proof_step) : result (Z * list proof_step) :=
  let '(index, proof) := st in
  let sibling_index := Z.lxor index 1 in
  do current <- getitem (tree self) level;
  do proof' <-
    (if sibling_index <? len current then
       let position :=
         if sibling_index <? index then str_left else str_right in
       do h <- getitem current sibling_index;
       Ok (proof ++ [{| hash := h; position := position |}])
     else Ok proof);
  Ok (index / 2, proof').

(** [get_proof(self, index)] *)
Definition get_proof (self : MerkleTree) (index : Z) : result (list proof_step) :=
  if (index <? 0) || (len (leaves self) <=? index) then Raise IndexError
  else
    do final <-
      for_loop (py_range 0 (len (tree self) - 1) 1) (proof_body self) (index, []);
    Ok (snd final).

(** The body of the loop of [verify_proof]. *)
Definition verify_step (current_hash : pystr) (sibling : proof_step)
  : result pystr :=
  if bool_decide (position sibling = str_left) then
    _hash_data (RStr (hash sibling ++ current_hash))
  else if bool_decide (position sibling = str_right) then
    _hash_data (RStr (current_hash ++ hash sibling))
  else Ok current_hash.

Fixpoint verify_loop (current_hash : pystr) (proof : list proof_step)
  : result pystr :=
  match proof with
  | [] => Ok current_hash
  | sibling :: rest =>
      do current_hash' <- verify_step current_hash sibling;
      verify_loop current_hash' rest
  end.

(** [verify_proof(self, leaf, proof, root)]; [root] is a [str] or [None],
    as [get_root] gives it. *)
Definition verify_proof (leaf : record) (proof : list proof_step)
    (root : option pystr) : result bool :=
  do current_hash <- _hash_data leaf;
  do current_hash' <- verify_loop current_hash proof;
  Ok (bool_decide (Some current_hash' = root)).

(** [get_level_nodes(self, level)] *)
Definition get_level_nodes (self : MerkleTree) (level : Z) : result (list pystr) :=
  if (level <? 0) || (len (tree self) <=? level) then Raise IndexError
  else getitem (tree self) level.

(** [find_sibling(self, index)] *)
Definition find_sibling (self : MerkleTree) (index : Z) : result (option pystr) :=
  if (index <? 0) || (len (leaves self) <=? index) then Raise IndexError
  else
    let sibling_index := Z.lxor index 1 in
    if sibling_index <? len (leaves self) then
      do level0 <- getitem (tree self) 0;
      do h <- getitem level0 sibling_index;
      Ok (Some h)
    else Ok None.

(** The helper [combine_hashes] of [check_integrity]. *)
Definition combine_hashes (left right : option pystr) : result pystr :=
  match left, right with
  | None, None => _hash_data (ROther (ascii_text "None"))
  | None, Some r => _hash_data (RStr r)
  | Some l, None => _hash_data (RStr l)
  | Some l, Some r => _hash_data (RStr (l ++ r))
  end.

(** The inner loop of [check_integrity] over the given positions of one
    level: [false] is the early [return False]. *)
Fixpoint check_nodes (self : MerkleTree) (level : Z) (positions : list Z)
  : result bool :=
  match positions with
  | [] => Ok true
  | i :: rest =>
      do current <- getitem (tree self) level;
      do left <- getitem current i;
      do right <- (if i + 1 <? len current then getitem current (i + 1)
                   else Ok left);
      do expected_parent_hash <- combine_hashes (Some left) (Some right);
      do above <- getitem (tree self) (level + 1);
      do parent <- getitem above (i / 2);
      if bool_decide (expected_parent_hash <> parent) then Ok false
      else check_nodes self level rest
  end.

(** The outer loop of [check_integrity] over the given levels. *)
Fixpoint check_levels (self : MerkleTree) (levels : list Z) : result bool :=
  match levels with
  | [] => Ok true
  | level :: rest =>
      do current <- getitem (tree self) level;
      do intact <- check_nodes self level (py_range 0 (len current) 2);
      if intact then check_levels self rest else Ok false
  end.

(** [check_integrity(self)] *)
Definition check_integrity (self : MerkleTree) : result bool :=
  check_levels self (py_range (len (tree self) - 2) (-1) (-1)).

(** *** test_immutability: a method that assigns to the instance *)

(** A computation over the instance: it gives a value or raises, and in
    both cases leaves an instance behind. *)
Definition method (A : Type) : Type := MerkleTree -> result A * MerkleTree.

Definition mret {A : Type} (a : A) : method A := fun self => (Ok a, self).

Definition mthen {A B : Type} (m : method A) (k : A -> method B) : method B :=
  fun self =>
    match m self with
    | (Ok a, self') => k a self'
    | (Raise e, self') => (Raise e, self')
    end.

(** A computation that only reads the instance. *)
Definition reading {A : Type} (f : MerkleTree -> result A) : method A :=
  fun self => (f self, self).

Notation "'run' x <~ m ; k" := (mthen m (fun x => k))
  (at level 10, x name, m at level 100, k at level 200).

(** [self.leaves[index] = value]: the store goes to the one list object
    that both [self.leaves] and [self.tree[0]] name. *)
Definition store_leaf (index : Z) (value : pystr) : method unit :=
  fun self =>
    match setitem (leaves self) index value with
    | Ok leaves' =>
        (Ok tt,
         {| leaves := leaves';
            tree := match tree self with
                    | [] => []
                    | _ :: above => leaves' :: above
                    end |})
    | Raise e => (Raise e, self)
    end.

(** [self.tree = self._build_tree(self.leaves)] *)
Definition rebuild : method unit :=
  fun self =>
    match _build_tree (leaves self) with
    | Ok tree' => (Ok tt, {| leaves := leaves self; tree := tree' |})
    | Raise e => (Raise e, self)
    end.

(** [test_immutability(self, index, new_value)] *)
Definition test_immutability (index : Z) (new_value : record) : method bool :=
  run original_root <~ reading get_root;
  run original_leaf <~ reading (fun self => getitem (leaves self) index);
  run new_leaf <~ reading (fun _ => _hash_data new_value);
  run _ <~ store_leaf index new_leaf;
  run _ <~ rebuild;
  run updated_root <~ reading get_root;
  run _ <~ store_leaf index original_leaf;
  run _ <~ rebuild;
  mret (bool_decide (original_root = updated_root)).

(** ** Sample inputs *)

Definition records_abc : list record :=
  [RStr (ascii_text "a"); RStr (ascii_text "b"); RStr (ascii_text "c")].

Definition dict_ab : pydict :=
  [(ascii_text "a", JInt 1); (ascii_text "b", JStr (ascii_text "x"))].

Definition dict_ba : pydict :=
  [(ascii_text "b", JStr (ascii_text "x")); (ascii_text "a", JInt 1)].

(** The instance built from [records_abc], evaluated. *)
Definition tree_abc : MerkleTree :=
  Eval vm_compute in
    match __init__ records_abc with
    | Ok self => self
    | Raise _ => {| leaves := []; tree := [] |}
    end.

(** A proof whose two steps carry positions other than left and right. *)
Definition malformed_proof : list proof_step :=
  [ {| hash := ascii_text "00"; position := ascii_text "up" |};
    {| hash := ascii_text "ff"; position := ascii_text "LEFT" |} ].

(** ** Closed forms used in the proofs *)

(** Every code point is ASCII, so [encode('utf-8')] is the identity. *)
Definition is_ascii (s : pystr) : Prop := Forall (fun c => 0 <= c < 128) s.

(** The digest stored for a node with children [l] and [r]. *)
Definition node (l r : pystr) : pystr := SHA256.hexdigest (l ++ r).

(** One level folded into the next: consecutive pairs, the last element
    of an odd level paired with itself. *)
Fixpoint pair_up (level : list pystr) : list pystr :=
  match level with
  | [] => []
  | [x] => [node x x]
  | x :: y :: rest => node x y :: pair_up rest
  end.

(** [built l levels]: [levels] is the list of levels above and including
    [l], each the fold of the one below, ending at a level of at most one
    element. *)
Inductive built : list pystr -> list (list pystr) -> Prop :=
| built_top (l : list pystr) :
    (length l <= 1)%nat -> built l [l]
| built_step (l : list pystr) (above : list (list pystr)) :
    (1 < length l)%nat -> built (pair_up l) above -> built l (l :: above).

(** [ceil(n / 2)] *)
Definition ceil_half (n : nat) : nat := Nat.div2 (S n).

(** ** Further notions used to state properties *)

(** [paired_path levels i]: walking up from position [i] of the first
    level, the XOR-1 sibling index lies inside every level below the last
    one, so [get_proof] emits a step at every level. *)
Fixpoint paired_path (levels : list (list pystr)) (i : Z) : bool :=
  match levels with
  | [] => true
  | l :: above =>
      match above with
      | [] => true
      | _ :: _ => (Z.lxor i 1 <? len l) && paired_path above (i / 2)
      end
  end.

(** A position that [get_proof] can emit. *)
Definition well_formed_step (s : proof_step) : Prop :=
  position s = str_left \/ position s = str_right.

(** The two-record input of the script at the end of the file. *)
Definition records_ab : list record :=
  [RStr (ascii_text "a"); RStr (ascii_text "b")].

(** The instance built from [records_ab], evaluated. *)
Definition tree_ab : MerkleTree :=
  Eval vm_compute in
    match __init__ records_ab with
    | Ok self => self
    | Raise _ => {| leaves := []; tree := [] |}
    end.

(** A lowercase hexadecimal digit: '0'..'9' or 'a'..'f'. *)
Definition is_hex_char (c : Z) : Prop := 48 <= c <= 57 \/ 97 <= c <= 102.

(** A record that [_hash_data] turns into a digest. *)
Definition hashable (data : record) : Prop := exists h, _hash_data data = Ok h.

(** [self.tree[level][position] = value], a store made from outside the
    class.  Level 0 is the list object [self.leaves], so a store there is
    seen through both attributes. *)
Definition overwrite_node (self : MerkleTree) (level position : nat)
    (value : pystr) : MerkleTree :=
  {| leaves := match level with
               | O => <[position := value]> (leaves self)
               | S _ => leaves self
               end;
     tree := alter (fun nodes => <[position := value]> nodes) level (tree self) |}.

(** The position in a list of length [n] that the index [i] denotes:
    [i] itself, or [i + n] when [i] is negative. *)
Definition list_position (n : nat) (i : Z) : nat :=
  Z.to_nat (if i <? 0 then i + Z.of_nat n else i).

(** A code point that a [str] can hold. *)
Definition is_codepoint (c : Z) : Prop := 0 <= c < 0x110000.

(** A surrogate code point, which UTF-8 cannot encode. *)
Definition is_surrogate (c : Z) : Prop := 0xd800 <= c <= 0xdfff.

(** * Properties *)

(** ** SHA-256 test vectors *)

Example round_constants_ends :
  hd 0 SHA256.round_constants = 0x428a2f98 /\
  last SHA256.round_constants = Some 0xc67178f2 /\
  SHA256.ra SHA256.initial_regs = 0x6a09e667 /\
  SHA256.rh SHA256.initial_regs = 0x5be0cd19.
Proof. vm_compute. repeat split. Qed.

Example sha256_empty : SHA256.hexdigest [] =
  ascii_text "e3b0c44298fc1c149afbf4c8996fb92427ae41e4649b934ca495991b7852b855".
Proof. vm_compute. reflexivity. Qed.

Example sha256_abc : SHA256.hexdigest (ascii_text "abc") =
  ascii_text "ba7816bf8f01cfea414140de5dae2223b00361a396177a9cb410ff61f20015ad".
Proof. vm_compute. reflexivity. Qed.

Example sha256_two_blocks : SHA256.hexdigest (repeat 97 56) =
  ascii_text "b35439a4ac6f0948b6d6f9e3c6af0f5f590ce20f1bde7090ef7970686ec6738a".
Proof. vm_compute. reflexivity. Qed.

(** ** The result monad *)

Lemma rbind_ok_inv {A B : Type} (m : result A) (k : A -> result B) (b : B) :
  rbind m k = Ok b -> exists a, m = Ok a /\ k a = Ok b.
Proof. destruct m as [a|e]; simpl; [eauto | discriminate]. Qed.

Ltac inv_bind H :=
  let a := fresh "a" in
  let Ha := fresh "Ha" in
  apply rbind_ok_inv in H; destruct H as (a & Ha & H).

(** ** List access *)

Lemma getitem_lookup {A : Type} (l : list A) (n : nat) (x : A) :
  l !! n = Some x -> getitem l (Z.of_nat n) = Ok x.
Proof.
  intros Hx. pose proof (lookup_lt_Some _ _ _ Hx) as Hn.
  unfold getitem, len.
  destruct (Z.ltb_spec (Z.of_nat n) 0); [lia|].
  destruct (Z.leb_spec 0 (Z.of_nat n)); [|lia].
  destruct (Z.ltb_spec (Z.of_nat n) (Z.of_nat (length l))); [|lia].
  simpl. rewrite Nat2Z.id, Hx. reflexivity.
Qed.

Lemma getitem_lookup_Z {A : Type} (l : list A) (i : Z) (x : A) :
  0 <= i -> l !! Z.to_nat i = Some x -> getitem l i = Ok x.
Proof.
  intros Hi Hx. rewrite <- (Z2Nat.id i) by assumption.
  apply getitem_lookup. assumption.
Qed.

Lemma getitem_in_range {A : Type} (l : list A) (i : Z) :
  0 <= i < len l -> exists x, l !! Z.to_nat i = Some x /\ getitem l i = Ok x.
Proof.
  intros [Hlo Hhi]. unfold len in Hhi.
  destruct (lookup_lt_is_Some_2 l (Z.to_nat i)) as [x Hx]; [lia|].
  exists x. split; [assumption|]. apply getitem_lookup_Z; assumption.
Qed.

Lemma getitem_out_of_range {A : Type} (l : list A) (i : Z) :
  len l <= i -> getitem l i = Raise IndexError.
Proof.
  intros Hi. unfold getitem. unfold len in *.
  destruct (Z.ltb_spec i 0); [lia|].
  destruct (Z.ltb_spec i (Z.of_nat (length l))); [lia|].
  rewrite andb_false_r. reflexivity.
Qed.

(** ** The loop of _build_tree *)

Lemma build_loop_while (tree : list (list pystr)) (current_level : list pystr) :
  build_loop tree current_level =
  if 1 <? len current_level then
    do next_level <- next_level_of current_level;
    build_loop (tree ++ [next_level]) next_level
  else Ok tree.
Proof.
  funelim (build_loop tree current_level).
  all: try rewrite <- Heqcall.
  all: match goal with
       | H : (1 <? len _) = _ |- _ => rewrite H
       end.
  all: try match goal with
       | H : next_level_of _ = _ |- _ => rewrite H
       end.
  all: reflexivity.
Qed.

(** ** Digests are ASCII text, and hashing ASCII text never raises *)

Lemma big_endian_bytes (n : nat) (x : Z) :
  Forall (fun b => 0 <= b < 256) (SHA256.big_endian n x).
Proof.
  revert x. induction n as [|n IH]; intros x; simpl.
  - constructor.
  - apply Forall_app. split; [apply IH|].
    constructor; [|constructor]. apply Z.mod_pos_bound. lia.
Qed.

Lemma digest_bytes (msg : list Z) :
  Forall (fun b => 0 <= b < 256) (SHA256.digest msg).
Proof.
  unfold SHA256.digest. apply List.Forall_forall. intros b Hb.
  apply List.in_flat_map in Hb. destruct Hb as (w & _ & Hb).
  pose proof (big_endian_bytes 4 w) as Hall.
  rewrite List.Forall_forall in Hall. apply Hall. assumption.
Qed.

Lemma hex_digit_ascii (d : Z) : 0 <= d < 16 -> 0 <= SHA256.hex_digit d < 128.
Proof. intros Hd. unfold SHA256.hex_digit. destruct (d <? 10); lia. Qed.

Lemma hexdigest_ascii (msg : list Z) : is_ascii (SHA256.hexdigest msg).
Proof.
  unfold is_ascii, SHA256.hexdigest. apply List.Forall_forall. intros c Hc.
  apply List.in_flat_map in Hc. destruct Hc as (b & Hb & Hc).
  pose proof (digest_bytes msg) as Hall.
  rewrite List.Forall_forall in Hall. specialize (Hall b Hb).
  simpl in Hc. destruct Hc as [<- | [<- | []]]; apply hex_digit_ascii.
  - split; [apply Z.div_pos; lia | apply Z.div_lt_upper_bound; lia].
  - apply Z.mod_pos_bound. lia.
Qed.

Lemma utf8_encode_ascii (s : pystr) : is_ascii s -> utf8_encode s = Ok s.
Proof.
  induction 1 as [|c s Hc _ IH]; simpl; [reflexivity|].
  unfold utf8_codepoint.
  destruct (Z.leb_spec 0 c); [|lia]. destruct (Z.ltb_spec c 0x80); [|lia].
  simpl. rewrite IH. reflexivity.
Qed.

Lemma is_ascii_app (l r : pystr) : is_ascii l -> is_ascii r -> is_ascii (l ++ r).
Proof. intros Hl Hr. apply Forall_app. split; assumption. Qed.

Lemma hash_data_str_ascii (s : pystr) :
  is_ascii s -> _hash_data (RStr s) = Ok (SHA256.hexdigest s).
Proof. intros Hs. unfold _hash_data. rewrite utf8_encode_ascii by assumption. reflexivity. Qed.

Lemma hash_data_concat (l r : pystr) :
  is_ascii l -> is_ascii r -> _hash_data (RStr (l ++ r)) = Ok (node l r).
Proof. intros Hl Hr. apply hash_data_str_ascii, is_ascii_app; assumption. Qed.

Lemma hash_data_ascii (data : record) (h : pystr) :
  _hash_data data = Ok h -> is_ascii h.
Proof.
  unfold _hash_data. intros H. inv_bind H.
  destruct a as [s|b]; simpl in H; [discriminate|].
  injection H as <-. apply hexdigest_ascii.
Qed.

Lemma node_ascii (l r : pystr) : is_ascii (node l r).
Proof. apply hexdigest_ascii. Qed.

Lemma comprehension_length {A B : Type} (f : A -> result B) (xs : list A) (ys : list B) :
  comprehension f xs = Ok ys -> length ys = length xs.
Proof.
  revert ys. induction xs as [|x xs IH]; intros ys; simpl.
  - intros [= <-]. reflexivity.
  - intros H. inv_bind H. inv_bind H. injection H as <-.
    simpl. f_equal. apply IH. assumption.
Qed.

Lemma comprehension_hash_ascii (data_list : list record) (hs : list pystr) :
  comprehension _hash_data data_list = Ok hs -> Forall is_ascii hs.
Proof.
  revert hs. induction data_list as [|d ds IH]; intros hs; simpl.
  - intros [= <-]. constructor.
  - intros H. inv_bind H. inv_bind H. injection H as <-.
    constructor; [eapply hash_data_ascii; eassumption | apply IH; assumption].
Qed.

(** ** The closed form of one level *)

Lemma list_pair_ind {A : Type} (P : list A -> Prop) :
  P [] -> (forall x, P [x]) -> (forall x y l, P l -> P (x :: y :: l)) ->
  forall l, P l.
Proof.
  intros Hnil Hone Hstep l.
  enough (P l /\ forall x, P (x :: l)) by tauto.
  induction l as [|y l [IH1 IH2]].
  - split; [exact Hnil | exact Hone].
  - split; [apply IH2 | intros x; apply Hstep, IH1].
Qed.

Lemma pair_up_length (l : list pystr) : length (pair_up l) = ceil_half (length l).
Proof.
  unfold ceil_half.
  induction l as [|x|x y l IH] using list_pair_ind; [reflexivity..|].
  simpl pair_up. simpl length. rewrite IH. reflexivity.
Qed.

Lemma pair_up_ascii (l : list pystr) : Forall is_ascii (pair_up l).
Proof.
  induction l as [|x|x y l IH] using list_pair_ind; simpl.
  - constructor.
  - constructor; [apply node_ascii | constructor].
  - constructor; [apply node_ascii | assumption].
Qed.

(** A parent at position [k] is the digest of the children at [2k] and
    [2k+1], or of the child at [2k] with itself when it is the last. *)
Lemma pair_up_lookup (l : list pystr) (k : nat) (x : pystr) :
  l !! (2 * k)%nat = Some x ->
  pair_up l !! k = Some (node x (default x (l !! (2 * k + 1)%nat))).
Proof.
  revert k. induction l as [|a|a b l IH] using list_pair_ind; intros k Hx.
  - discriminate.
  - destruct k as [|k]; [|destruct k; discriminate].
    simpl in Hx. injection Hx as ->. reflexivity.
  - destruct k as [|k].
    + simpl in Hx. injection Hx as ->. reflexivity.
    + replace (2 * S k)%nat with (S (S (2 * k))) in Hx by lia.
      replace (2 * S k + 1)%nat with (S (S (2 * k + 1))) by lia.
      simpl in Hx |- *. apply IH. assumption.
Qed.

Lemma range_pairs_count (n : nat) :
  Z.to_nat ((Z.of_nat n - 0 + 2 - 1) / 2) = ceil_half n.
Proof.
  unfold ceil_half. rewrite Nat.div2_div.
  replace (Z.of_nat n - 0 + 2 - 1) with (Z.of_nat (S n)) by lia.
  change 2 with (Z.of_nat 2).
  rewrite <- (Nat2Z.inj_div (S n) 2). apply Nat2Z.id.
Qed.

Lemma pair_loop_closed_form (current_level : list pystr) :
  Forall is_ascii current_level ->
  forall (rest done : list pystr) (j : nat) (acc : list pystr),
    current_level = done ++ rest ->
    length done = (2 * j)%nat ->
    for_loop (map (fun k => 0 + 2 * Z.of_nat k) (seq j (length (pair_up rest))))
      (pair_body current_level) acc
    = Ok (acc ++ pair_up rest).
Proof.
  intros Hascii rest.
  induction rest as [|x|x y rest IH] using list_pair_ind;
    intros done j acc Hcur Hdone.
  - simpl. rewrite app_nil_r. reflexivity.
  - simpl. unfold pair_body.
    assert (Hx : current_level !! (2 * j)%nat = Some x).
    { rewrite Hcur, <- Hdone. apply list_lookup_middle. reflexivity. }
    replace (0 + 2 * Z.of_nat j) with (Z.of_nat (2 * j)) by lia.
    rewrite (getitem_lookup _ _ _ Hx). simpl.
    assert (Hlen : len current_level = Z.of_nat (2 * j) + 1).
    { unfold len. rewrite Hcur, length_app, Hdone. simpl. lia. }
    rewrite Hlen, Z.ltb_irrefl. simpl.
    assert (is_ascii x).
    { rewrite List.Forall_forall in Hascii. apply Hascii.
      apply list_elem_of_In. eapply list_elem_of_lookup_2. exact Hx. }
    rewrite hash_data_concat by assumption. reflexivity.
  - simpl pair_up. simpl length. simpl seq. simpl map. simpl for_loop.
    unfold pair_body at 1.
    assert (Hx : current_level !! (2 * j)%nat = Some x).
    { rewrite Hcur, <- Hdone. apply list_lookup_middle. reflexivity. }
    assert (Hy : current_level !! (2 * j + 1)%nat = Some y).
    { rewrite Hcur, <- Hdone. rewrite lookup_app_r by lia.
      replace (length done + 1 - length done)%nat with 1%nat by lia. reflexivity. }
    replace (0 + 2 * Z.of_nat j) with (Z.of_nat (2 * j)) by lia.
    rewrite (getitem_lookup _ _ _ Hx). cbn [rbind].
    assert (Hlen : Z.of_nat (2 * j) + 1 < len current_level).
    { unfold len. rewrite Hcur, length_app, Hdone. simpl. lia. }
    apply Z.ltb_lt in Hlen. rewrite Hlen.
    replace (Z.of_nat (2 * j) + 1) with (Z.of_nat (2 * j + 1)) by lia.
    rewrite (getitem_lookup _ _ _ Hy). cbn [rbind].
    assert (is_ascii x /\ is_ascii y) as [Hax Hay].
    { rewrite List.Forall_forall in Hascii.
      split; apply Hascii; apply list_elem_of_In;
        eapply list_elem_of_lookup_2; eassumption. }
    rewrite hash_data_concat by assumption. cbn [rbind].
    rewrite (IH (done ++ [x; y]) (S j) (acc ++ [node x y])).
    + rewrite <- app_assoc. reflexivity.
    + rewrite <- app_assoc. exact Hcur.
    + rewrite length_app, Hdone. simpl. lia.
Qed.

(** On digests, the [for] loop never raises and computes [pair_up]. *)
Lemma next_level_of_ascii (current_level : list pystr) :
  Forall is_ascii current_level ->
  next_level_of current_level = Ok (pair_up current_level).
Proof.
  intros Hascii. unfold next_level_of, py_range.
  change (0 <? 2) with true. cbv iota.
  unfold len. rewrite range_pairs_count, <- pair_up_length.
  apply (pair_loop_closed_form current_level Hascii current_level [] 0%nat []);
    reflexivity.
Qed.

(** ** The closed form of the whole tree *)

Lemma ceil_half_lt (n : nat) : (1 < n)%nat -> (ceil_half n < n)%nat.
Proof.
  intros Hn. unfold ceil_half. rewrite Nat.div2_div.
  apply Nat.Div0.div_lt_upper_bound. lia.
Qed.

(** On digests the [while] loop ends, never raises, and appends the levels
    described by [built]. *)
Lemma build_loop_built (current_level : list pystr) :
  forall before : list (list pystr),
    Forall is_ascii current_level ->
    exists levels,
      built current_level levels /\
      build_loop (before ++ [current_level]) current_level = Ok (before ++ levels).
Proof.
  remember (length current_level) as n eqn:Hn.
  revert current_level Hn.
  induction n as [n IH] using lt_wf_ind. intros cur Hn before Hascii.
  rewrite build_loop_while. unfold len.
  destruct (Z.ltb_spec 1 (Z.of_nat (length cur))) as [Hlong|Hshort].
  - rewrite next_level_of_ascii by assumption. cbn [rbind].
    destruct (IH (length (pair_up cur))) with (current_level := pair_up cur)
      (before := before ++ [cur]) as (levels & Hbuilt & Hloop).
    + rewrite pair_up_length. subst n. apply ceil_half_lt. lia.
    + reflexivity.
    + apply pair_up_ascii.
    + exists (cur :: levels). split.
      * apply built_step; [lia | assumption].
      * rewrite Hloop, <- app_assoc. reflexivity.
  - exists [cur]. split; [apply built_top; lia | reflexivity].
Qed.

Lemma build_tree_built (leaves : list pystr) :
  Forall is_ascii leaves ->
  exists levels, built leaves levels /\ _build_tree leaves = Ok levels.
Proof.
  intros Hascii.
  destruct (build_loop_built leaves [] Hascii) as (levels & Hbuilt & Hloop).
  exists levels. split; [assumption | exact Hloop].
Qed.

Lemma built_head (l : list pystr) (levels : list (list pystr)) :
  built l levels -> exists above, levels = l :: above.
Proof. intros [l' _ | l' above _ _]; eauto. Qed.

Lemma built_ascii (l : list pystr) (levels : list (list pystr)) :
  built l levels -> Forall is_ascii l -> Forall (Forall is_ascii) levels.
Proof.
  induction 1 as [l _ | l above _ _ IH]; intros Hl.
  - constructor; [assumption | constructor].
  - constructor; [assumption | apply IH, pair_up_ascii].
Qed.

Lemma built_consecutive (l : list pystr) (levels : list (list pystr)) :
  built l levels ->
  forall (k : nat) (a b : list pystr),
    levels !! k = Some a -> levels !! S k = Some b ->
    b = pair_up a /\ (1 < length a)%nat.
Proof.
  induction 1 as [l _ | l above Hlong Habove IH]; intros k a b Ha Hb.
  - destruct k; discriminate.
  - destruct k as [|k].
    + simpl in Ha. injection Ha as <-.
      destruct (built_head _ _ Habove) as (rest & ->).
      simpl in Hb. injection Hb as <-. split; [reflexivity | assumption].
    + simpl in Ha, Hb. eapply IH; eassumption.
Qed.

Lemma pair_up_nonempty (l : list pystr) : l <> [] -> pair_up l <> [].
Proof. destruct l as [|x [|y l]]; simpl; congruence. Qed.

Lemma built_last (l : list pystr) (levels : list (list pystr)) :
  built l levels ->
  exists top, last levels = Some top /\ (length top <= 1)%nat /\ (l <> [] -> top <> []).
Proof.
  induction 1 as [l Hshort | l above Hlong Habove IH].
  - exists l. repeat split; [assumption | tauto].
  - destruct IH as (top & Htop & Hlen & Hne).
    exists top. repeat split.
    + destruct (built_head _ _ Habove) as (rest & ->). exact Htop.
    + assumption.
    + intros Hl. apply Hne, pair_up_nonempty, Hl.
Qed.

(** What construction establishes. *)
Lemma init_inv (data_list : list record) (self : MerkleTree) :
  __init__ data_list = Ok self ->
  comprehension _hash_data data_list = Ok (leaves self) /\
  _build_tree (leaves self) = Ok (tree self) /\
  Forall is_ascii (leaves self) /\
  built (leaves self) (tree self).
Proof.
  unfold __init__. intros H. inv_bind H. inv_bind H. injection H as <-. simpl.
  pose proof (comprehension_hash_ascii _ _ Ha) as Hascii.
  destruct (build_tree_built a Hascii) as (levels & Hbuilt & Hlevels).
  assert (a0 = levels) as -> by congruence.
  repeat split; assumption.
Qed.

(** ** Ranges *)

Lemma py_range_up_bounds (n : Z) :
  Forall (fun i => 0 <= i < n) (py_range 0 n 1).
Proof.
  unfold py_range. change (0 <? 1) with true. cbv iota.
  apply List.Forall_forall. intros i Hi.
  apply List.in_map_iff in Hi. destruct Hi as (k & <- & Hk).
  apply List.in_seq in Hk. rewrite Z.div_1_r in Hk. lia.
Qed.

Lemma py_range_down_bounds (n : Z) :
  Forall (fun i => 0 <= i < n - 1) (py_range (n - 2) (-1) (-1)).
Proof.
  unfold py_range. change (0 <? -1) with false. cbv iota.
  change (- -1) with 1.
  apply List.Forall_forall. intros i Hi.
  apply List.in_map_iff in Hi. destruct Hi as (k & <- & Hk).
  apply List.in_seq in Hk. rewrite Z.div_1_r in Hk. lia.
Qed.

Lemma py_range_even_positions (n : nat) :
  Forall (fun i => exists k : nat, i = Z.of_nat (2 * k) /\ (2 * k < n)%nat)
    (py_range 0 (Z.of_nat n) 2).
Proof.
  unfold py_range. change (0 <? 2) with true. cbv iota.
  apply List.Forall_forall. intros i Hi.
  apply List.in_map_iff in Hi. destruct Hi as (k & <- & Hk).
  apply List.in_seq in Hk. exists k. split; [lia|].
  pose proof (Z.mul_div_le (Z.of_nat n - 0 + 2 - 1) 2 ltac:(lia)). lia.
Qed.

(** ** The integrity check on a level and its parent level *)

Lemma check_nodes_intact (self : MerkleTree) (n : nat) (a : list pystr) :
  tree self !! n = Some a ->
  tree self !! S n = Some (pair_up a) ->
  Forall is_ascii a ->
  forall positions : list Z,
    Forall (fun i => exists k : nat, i = Z.of_nat (2 * k) /\ (2 * k < length a)%nat)
      positions ->
    check_nodes self (Z.of_nat n) positions = Ok true.
Proof.
  intros Ha Hup Hascii positions Hpos.
  induction Hpos as [|i rest (k & -> & Hk) _ IH]; [reflexivity|].
  cbn [check_nodes].
  rewrite (getitem_lookup _ _ _ Ha). cbn [rbind].
  destruct (lookup_lt_is_Some_2 a (2 * k)) as [x Hx]; [assumption|].
  rewrite (getitem_lookup _ _ _ Hx). cbn [rbind].
  assert (Hax : is_ascii x).
  { rewrite List.Forall_forall in Hascii. apply Hascii, list_elem_of_In.
    eapply list_elem_of_lookup_2. exact Hx. }
  pose proof (pair_up_lookup a k x Hx) as Hparent.
  assert (Hright :
    (if Z.of_nat (2 * k) + 1 <? len a then getitem a (Z.of_nat (2 * k) + 1)
     else Ok x) = Ok (default x (a !! (2 * k + 1)%nat)) /\
    is_ascii (default x (a !! (2 * k + 1)%nat))).
  { unfold len. destruct (Z.ltb_spec (Z.of_nat (2 * k) + 1) (Z.of_nat (length a))).
    - destruct (lookup_lt_is_Some_2 a (2 * k + 1)) as [y Hy]; [lia|].
      rewrite Hy. cbn [from_option id]. split.
      + replace (Z.of_nat (2 * k) + 1) with (Z.of_nat (2 * k + 1)) by lia.
        apply getitem_lookup. exact Hy.
      + rewrite List.Forall_forall in Hascii. apply Hascii, list_elem_of_In.
        eapply list_elem_of_lookup_2. exact Hy.
    - rewrite (lookup_ge_None_2 a (2 * k + 1)) by lia. cbn [from_option].
      split; [reflexivity | assumption]. }
  destruct Hright as [-> Har]. cbn [rbind combine_hashes].
  rewrite hash_data_concat by assumption. cbn [rbind].
  replace (Z.of_nat n + 1) with (Z.of_nat (S n)) by lia.
  rewrite (getitem_lookup _ _ _ Hup). cbn [rbind].
  replace (Z.of_nat (2 * k) / 2) with (Z.of_nat k).
  2:{ rewrite Nat2Z.inj_mul. change (Z.of_nat 2) with 2.
      rewrite Z.mul_comm, Z.div_mul by lia. reflexivity. }
  rewrite (getitem_lookup _ _ _ Hparent). cbn [rbind].
  rewrite bool_decide_eq_false_2 by (intros Hne; apply Hne; reflexivity).
  exact IH.
Qed.

Lemma check_levels_intact (self : MerkleTree) :
  Forall is_ascii (leaves self) ->
  built (leaves self) (tree self) ->
  forall levels : list Z,
    Forall (fun i => 0 <= i < len (tree self) - 1) levels ->
    check_levels self levels = Ok true.
Proof.
  intros Hascii Hbuilt levels Hlevels.
  induction Hlevels as [|i rest Hi _ IH]; [reflexivity|].
  cbn [check_levels]. unfold len in Hi.
  destruct (lookup_lt_is_Some_2 (tree self) (Z.to_nat i)) as [a Ha]; [lia|].
  destruct (lookup_lt_is_Some_2 (tree self) (S (Z.to_nat i))) as [b Hb]; [lia|].
  destruct (built_consecutive _ _ Hbuilt _ _ _ Ha Hb) as [-> _].
  rewrite (getitem_lookup_Z _ _ _ (proj1 Hi) Ha). cbn [rbind].
  rewrite <- (Z2Nat.id i) at 1 by lia.
  rewrite (check_nodes_intact self (Z.to_nat i) a Ha Hb).
  - cbn [rbind]. exact IH.
  - pose proof (built_ascii _ _ Hbuilt Hascii) as Hall.
    rewrite List.Forall_forall in Hall. apply Hall, list_elem_of_In.
    eapply list_elem_of_lookup_2. exact Ha.
  - apply py_range_even_positions.
Qed.

(** ** The loop of get_proof never raises *)

Lemma proof_loop_ok (self : MerkleTree) (levels : list Z) :
  Forall (fun i => 0 <= i < len (tree self)) levels ->
  forall (index : Z) (proof : list proof_step),
    0 <= index ->
    exists final, for_loop levels (proof_body self) (index, proof) = Ok final.
Proof.
  induction 1 as [|level rest Hlevel _ IH]; intros index proof Hindex.
  - eexists. reflexivity.
  - cbn [for_loop]. unfold proof_body at 1.
    destruct (getitem_in_range (tree self) level Hlevel) as (current & _ & ->).
    cbn [rbind].
    assert (Hsib : 0 <= Z.lxor index 1) by (apply Z.lxor_nonneg; lia).
    assert (Hhalf : 0 <= index / 2) by (apply Z.div_pos; lia).
    destruct (Z.ltb_spec (Z.lxor index 1) (len current)) as [Hin|Hout].
    + destruct (getitem_in_range current (Z.lxor index 1)) as (h & _ & ->); [lia|].
      cbn [rbind]. apply IH. exact Hhalf.
    + cbn [rbind]. apply IH. exact Hhalf.
Qed.

(** ** The root of a built tree *)

Lemma getitem_last {A : Type} (l : list A) (x : A) :
  last l = Some x -> getitem l (-1) = Ok x.
Proof.
  intros Hlast. rewrite last_lookup in Hlast.
  pose proof (lookup_lt_Some _ _ _ Hlast) as Hlt.
  unfold getitem, len. change (-1 <? 0) with true. cbv iota.
  destruct (Z.leb_spec 0 (-1 + Z.of_nat (length l))); [|lia].
  destruct (Z.ltb_spec (-1 + Z.of_nat (length l)) (Z.of_nat (length l))); [|lia].
  cbn [andb].
  replace (Z.to_nat (-1 + Z.of_nat (length l))) with (pred (length l)) by lia.
  rewrite Hlast. reflexivity.
Qed.

Lemma built_root (l : list pystr) (levels : list (list pystr)) :
  built l levels -> l <> [] -> exists root, last levels = Some [root].
Proof.
  intros Hbuilt Hne.
  destruct (built_last _ _ Hbuilt) as (top & Htop & Hlen & Hnonempty).
  specialize (Hnonempty Hne).
  destruct top as [|root [|? ?]]; [congruence | | simpl in Hlen; lia].
  exists root. exact Htop.
Qed.

Lemma get_root_built (self : MerkleTree) :
  built (leaves self) (tree self) -> leaves self <> [] ->
  exists root, last (tree self) = Some [root] /\ get_root self = Ok (Some root).
Proof.
  intros Hbuilt Hne.
  destruct (built_root _ _ Hbuilt Hne) as (root & Hlast).
  exists root. split; [assumption|].
  unfold get_root. destruct (built_head _ _ Hbuilt) as (above & Htree).
  rewrite Htree. rewrite <- Htree.
  rewrite (getitem_last _ _ Hlast). reflexivity.
Qed.

(** ** Storing into the leaves *)

Lemma setitem_in_range {A : Type} (l : list A) (i : Z) (v : A) :
  0 <= i < len l -> setitem l i v = Ok (<[Z.to_nat i := v]> l).
Proof.
  intros [Hlo Hhi]. unfold setitem.
  destruct (Z.ltb_spec i 0); [lia|].
  destruct (Z.leb_spec 0 i); [|lia].
  destruct (Z.ltb_spec i (len l)); [|lia].
  reflexivity.
Qed.

Lemma MerkleTree_eta (self : MerkleTree) :
  {| leaves := leaves self; tree := tree self |} = self.
Proof. destruct self. reflexivity. Qed.

(** The state and value of [test_immutability] on a consistent instance,
    when the new value can be hashed. *)
Lemma test_immutability_run (self : MerkleTree) (index : Z) (new_value : record)
    (new_leaf : pystr) :
  Forall is_ascii (leaves self) ->
  built (leaves self) (tree self) ->
  _build_tree (leaves self) = Ok (tree self) ->
  0 <= index < len (leaves self) ->
  _hash_data new_value = Ok new_leaf ->
  exists b, test_immutability index new_value self = (Ok b, self).
Proof.
  intros Hascii Hbuilt Htree Hindex Hnew.
  assert (Hne : leaves self <> []).
  { unfold len in Hindex. destruct (leaves self); [simpl in Hindex; lia | congruence]. }
  destruct (get_root_built self Hbuilt Hne) as (root & _ & Hroot).
  destruct (getitem_in_range (leaves self) index Hindex) as (original & Horig & Hget).
  set (leaves' := <[Z.to_nat index := new_leaf]> (leaves self)).
  assert (Hascii' : Forall is_ascii leaves').
  { apply Forall_insert; [assumption | eapply hash_data_ascii; eassumption]. }
  destruct (build_tree_built leaves' Hascii') as (tree' & Hbuilt' & Htree').
  assert (Hne' : leaves' <> []).
  { intros Hnil. apply (f_equal length) in Hnil.
    unfold leaves' in Hnil. rewrite length_insert in Hnil.
    destruct (leaves self); [congruence | discriminate]. }
  set (self' := {| leaves := leaves'; tree := tree' |}).
  destruct (get_root_built self' Hbuilt' Hne') as (root' & _ & Hroot').
  exists (bool_decide (Some root = Some root')).
  unfold test_immutability, mthen, reading, mret.
  rewrite Hroot, Hget, Hnew.
  unfold store_leaf at 1. cbn [leaves tree].
  rewrite (setitem_in_range _ _ _ Hindex). fold leaves'.
  unfold rebuild at 1. cbn [leaves tree]. rewrite Htree'. fold self'.
  rewrite Hroot'.
  unfold store_leaf at 1. cbn [leaves tree self'].
  assert (Hindex' : 0 <= index < len leaves').
  { unfold len, leaves'. rewrite length_insert. exact Hindex. }
  rewrite (setitem_in_range _ _ _ Hindex').
  unfold leaves'. rewrite list_insert_insert_eq, (list_insert_id _ _ _ Horig).
  unfold rebuild. cbn [leaves tree]. rewrite Htree.
  rewrite MerkleTree_eta. reflexivity.
Qed.

(** When the new value cannot be hashed, nothing has been stored yet. *)
Lemma test_immutability_raise (self : MerkleTree) (index : Z) (new_value : record)
    (e : exn) :
  built (leaves self) (tree self) ->
  0 <= index < len (leaves self) ->
  _hash_data new_value = Raise e ->
  test_immutability index new_value self = (Raise e, self).
Proof.
  intros Hbuilt Hindex Hnew.
  assert (Hne : leaves self <> []).
  { unfold len in Hindex. destruct (leaves self); [simpl in Hindex; lia | congruence]. }
  destruct (get_root_built self Hbuilt Hne) as (root & _ & Hroot).
  destruct (getitem_in_range (leaves self) index Hindex) as (original & _ & Hget).
  unfold test_immutability, mthen, reading.
  rewrite Hroot, Hget, Hnew. reflexivity.
Qed.

(** * The stated properties *)

(** Closed comparisons on concrete inputs, by evaluation. *)
Ltac evaluate :=
  vm_compute; repeat split; try discriminate; try reflexivity.

Lemma init_abc : __init__ records_abc = Ok tree_abc.
Proof. vm_compute. reflexivity. Qed.

(** C1 (the code departs from the claim).  The claim: for every non-empty
    record list and every valid leaf index i, verifying record i against
    [get_proof(i)] and [get_root()] gives true.  On the three records
    "a", "b", "c" and index 2 the proof generated by the code has a single
    step, for level 1: at level 0 the unpaired leaf has no sibling in
    range and no step is emitted, although [_build_tree] hashed that leaf
    with itself.  Verification of the generated proof returns false. *)
Theorem proof_roundtrip_fails_on_unpaired_leaf :
  (do self <- __init__ records_abc;
   do leaf <- getitem records_abc 2;
   do proof <- get_proof self 2;
   do root <- get_root self;
   do valid <- verify_proof leaf proof root;
   Ok (length proof, valid))
  = Ok (1%nat, false).
Proof. vm_compute. reflexivity. Qed.

(** The serialisation itself does not depend on the insertion order. *)
Example json_dumps_key_order :
  json_dumps_sort_keys dict_ab = json_dumps_sort_keys dict_ba.
Proof. vm_compute. reflexivity. Qed.

(** C2 (the code departs from the claim).  The claim: two mappings with
    the same items in different insertion orders get the same leaf digest,
    the SHA-256 of the UTF-8 bytes of the sorted-key serialisation.  In
    the code the serialised text reaches [hashlib.sha256] without being
    encoded, so [_hash_data] raises TypeError on every mapping and
    returns no digest at all. *)
Theorem hash_data_of_dict_raises (d : pydict) :
  _hash_data (RDict d) = Raise TypeError.
Proof. reflexivity. Qed.

(** C3 (the code departs from the claim).  The claim: on a tree made from
    an empty record list [get_root()] returns None without raising.  The
    tree of the empty list is [[[]]], a non-empty list holding one empty
    level, so the guard [if self.tree] passes and [self.tree[-1][0]]
    raises IndexError. *)
Theorem get_root_of_empty_tree_raises :
  __init__ [] = Ok {| leaves := []; tree := [[]] |} /\
  get_root {| leaves := []; tree := [[]] |} = Raise IndexError.
Proof. split; vm_compute; reflexivity. Qed.

(** C4 as stated fails: for the unpaired last leaf (index 2 of three
    leaves, whose XOR-1 sibling index 3 is outside the leaf level)
    [find_sibling] does not return the leaf's own hash. *)
Lemma find_sibling_own_hash_counterexample :
  __init__ records_abc = Ok tree_abc /\
  0 <= 2 < len (leaves tree_abc) /\
  len (leaves tree_abc) <= Z.lxor 2 1 /\
  exists own, getitem (leaves tree_abc) 2 = Ok own /\
              find_sibling tree_abc 2 <> Ok (Some own).
Proof.
  split; [exact init_abc|].
  split; [vm_compute; split; congruence|].
  split; [vm_compute; congruence|].
  eexists. split; [vm_compute; reflexivity|].
  vm_compute. discriminate.
Qed.

(** C4, amended: for every instance and every valid leaf index whose XOR-1
    sibling index is outside the leaf level, [find_sibling] returns None
    (the absent value); for every index outside [0, leafCount) it raises
    IndexError. *)
Theorem find_sibling_unpaired_is_absent (self : MerkleTree) (index : Z) :
  (0 <= index < len (leaves self) -> len (leaves self) <= Z.lxor index 1 ->
   find_sibling self index = Ok None) /\
  (index < 0 \/ len (leaves self) <= index ->
   find_sibling self index = Raise IndexError).
Proof.
  unfold find_sibling. split.
  - intros [Hlo Hhi] Hsib.
    destruct (Z.ltb_spec index 0); [lia|].
    destruct (Z.leb_spec (len (leaves self)) index); [lia|].
    destruct (Z.ltb_spec (Z.lxor index 1) (len (leaves self))); [lia|].
    reflexivity.
  - intros [Hneg|Hbig].
    + destruct (Z.ltb_spec index 0); [reflexivity | lia].
    + destruct (Z.leb_spec (len (leaves self)) index); [|lia].
      rewrite orb_true_r. reflexivity.
Qed.

Lemma find_sibling_unpaired_is_absent_witness :
  (0 <= 2 < len (leaves tree_abc) /\ len (leaves tree_abc) <= Z.lxor 2 1) /\
  find_sibling tree_abc 2 = Ok None /\
  find_sibling tree_abc 3 = Raise IndexError /\
  find_sibling tree_abc (-1) = Raise IndexError.
Proof.
  assert (Hin : 0 <= 2 < len (leaves tree_abc)) by evaluate.
  assert (Hsib : len (leaves tree_abc) <= Z.lxor 2 1) by evaluate.
  split; [split; assumption|].
  split; [|split].
  - apply (proj1 (find_sibling_unpaired_is_absent tree_abc 2)); assumption.
  - apply (proj2 (find_sibling_unpaired_is_absent tree_abc 3)).
    right. evaluate.
  - apply (proj2 (find_sibling_unpaired_is_absent tree_abc (-1))).
    left. evaluate.
Defined.

(** C5: for every record list from which a tree is constructed,
    [check_integrity()] on the fresh instance returns true. *)
Theorem check_integrity_after_construction (data_list : list record)
    (self : MerkleTree) :
  __init__ data_list = Ok self -> check_integrity self = Ok true.
Proof.
  intros Hinit. destruct (init_inv _ _ Hinit) as (_ & _ & Hascii & Hbuilt).
  unfold check_integrity.
  apply check_levels_intact; [assumption | assumption |].
  apply py_range_down_bounds.
Qed.

Lemma check_integrity_after_construction_witness :
  __init__ records_abc = Ok tree_abc /\ check_integrity tree_abc = Ok true.
Proof.
  split; [vm_compute; reflexivity|].
  apply (check_integrity_after_construction records_abc tree_abc).
  vm_compute; reflexivity.
Defined.

(** C6: [get_proof(index)] raises exactly when [index < 0] or
    [index >= leafCount], the exception then is IndexError, and for every
    index in [0, leafCount) a proof is returned. *)
Theorem get_proof_raises_iff_out_of_range (self : MerkleTree) (index : Z) :
  ((exists e, get_proof self index = Raise e) <->
   index < 0 \/ len (leaves self) <= index) /\
  (index < 0 \/ len (leaves self) <= index ->
   get_proof self index = Raise IndexError) /\
  (0 <= index < len (leaves self) ->
   exists proof, get_proof self index = Ok proof).
Proof.
  assert (Hout : index < 0 \/ len (leaves self) <= index ->
                 get_proof self index = Raise IndexError).
  { unfold get_proof. intros [Hneg|Hbig].
    - destruct (Z.ltb_spec index 0); [reflexivity | lia].
    - destruct (Z.leb_spec (len (leaves self)) index); [|lia].
      rewrite orb_true_r. reflexivity. }
  assert (Hin : 0 <= index < len (leaves self) ->
                exists proof, get_proof self index = Ok proof).
  { unfold get_proof. intros [Hlo Hhi].
    destruct (Z.ltb_spec index 0); [lia|].
    destruct (Z.leb_spec (len (leaves self)) index); [lia|].
    cbn [orb].
    destruct (proof_loop_ok self (py_range 0 (len (tree self) - 1) 1))
      with (index := index) (proof := @nil proof_step) as (final & ->).
    - eapply Forall_impl; [apply py_range_up_bounds|].
      cbn beta. intros; lia.
    - assumption.
    - eexists. reflexivity. }
  split; [|split; assumption].
  split.
  - intros (e & He).
    destruct (Z.lt_ge_cases index 0) as [|Hlo]; [left; assumption|].
    destruct (Z.le_gt_cases (len (leaves self)) index) as [|Hhi]; [right; assumption|].
    destruct Hin as (proof & Hproof); [lia|]. congruence.
  - intros Hrange. exists IndexError. apply Hout, Hrange.
Qed.

Lemma get_proof_raises_iff_out_of_range_witness :
  get_proof tree_abc 3 = Raise IndexError /\
  get_proof tree_abc (-1) = Raise IndexError /\
  exists proof, get_proof tree_abc 2 = Ok proof.
Proof.
  split; [|split].
  - apply (proj1 (proj2 (get_proof_raises_iff_out_of_range tree_abc 3))).
    right. evaluate.
  - apply (proj1 (proj2 (get_proof_raises_iff_out_of_range tree_abc (-1)))).
    left. evaluate.
  - apply (proj2 (proj2 (get_proof_raises_iff_out_of_range tree_abc 2))).
    evaluate.
Defined.

(** C7: in a tree built from a non-empty record list, each level above the
    leaves has [ceil(n / 2)] elements, [n] being the size of the level
    below it, and the final level has exactly one element. *)
Theorem level_sizes_halve (data_list : list record) (self : MerkleTree) :
  data_list <> [] ->
  __init__ data_list = Ok self ->
  (forall (k : nat) (lower upper : list pystr),
     tree self !! k = Some lower -> tree self !! S k = Some upper ->
     length upper = ceil_half (length lower)) /\
  (exists root, last (tree self) = Some [root]).
Proof.
  intros Hdata Hinit.
  destruct (init_inv _ _ Hinit) as (Hleaves & _ & _ & Hbuilt).
  split.
  - intros k lower upper Hlower Hupper.
    destruct (built_consecutive _ _ Hbuilt _ _ _ Hlower Hupper) as [-> _].
    apply pair_up_length.
  - apply (built_root _ _ Hbuilt).
    intros Hnil. apply comprehension_length in Hleaves.
    rewrite Hnil in Hleaves. destruct data_list; [congruence | discriminate].
Qed.

Lemma level_sizes_halve_witness :
  (records_abc <> [] /\ __init__ records_abc = Ok tree_abc) /\
  (forall (k : nat) (lower upper : list pystr),
     tree tree_abc !! k = Some lower -> tree tree_abc !! S k = Some upper ->
     length upper = ceil_half (length lower)) /\
  (exists root, last (tree tree_abc) = Some [root]).
Proof.
  assert (Hne : records_abc <> []) by discriminate.
  assert (Hinit : __init__ records_abc = Ok tree_abc) by (vm_compute; reflexivity).
  split; [split; assumption|].
  exact (level_sizes_halve records_abc tree_abc Hne Hinit).
Defined.

(** C8: for three records a, b, c (each of which can be hashed), level 1
    of the built tree is hash(hash(a)+hash(b)), hash(hash(c)+hash(c)), in
    that order, and the root is the hash of the concatenation of these
    two nodes. *)
Theorem three_leaves_duplicate_last (a b c : record) (ha hb hc : pystr) :
  _hash_data a = Ok ha ->
  _hash_data b = Ok hb ->
  _hash_data c = Ok hc ->
  exists (self : MerkleTree) (n1 n2 root : pystr),
    __init__ [a; b; c] = Ok self /\
    _hash_data (RStr (ha ++ hb)) = Ok n1 /\
    _hash_data (RStr (hc ++ hc)) = Ok n2 /\
    _hash_data (RStr (n1 ++ n2)) = Ok root /\
    get_level_nodes self 1 = Ok [n1; n2] /\
    get_root self = Ok (Some root).
Proof.
  intros Ha Hb Hc.
  pose proof (hash_data_ascii _ _ Ha) as Haa.
  pose proof (hash_data_ascii _ _ Hb) as Hab.
  pose proof (hash_data_ascii _ _ Hc) as Hac.
  assert (Hascii : Forall is_ascii [ha; hb; hc]) by (repeat constructor; assumption).
  destruct (build_tree_built _ Hascii) as (levels & Hbuilt & Htree).
  assert (Hlevels : levels =
    [[ha; hb; hc]; [node ha hb; node hc hc];
     [node (node ha hb) (node hc hc)]]).
  { inversion Hbuilt as [? Hshort | ? above1 _ Hbuilt1]; subst;
      [simpl in Hshort; lia|].
    cbn [pair_up] in Hbuilt1.
    inversion Hbuilt1 as [? Hshort | ? above2 _ Hbuilt2]; subst;
      [simpl in Hshort; lia|].
    cbn [pair_up] in Hbuilt2.
    inversion Hbuilt2 as [? _ | ? above3 Hlong _]; subst;
      [reflexivity | simpl in Hlong; lia]. }
  subst levels.
  exists {| leaves := [ha; hb; hc];
            tree := [[ha; hb; hc]; [node ha hb; node hc hc];
                     [node (node ha hb) (node hc hc)]] |}.
  exists (node ha hb), (node hc hc), (node (node ha hb) (node hc hc)).
  split; [|split; [|split; [|split; [|split]]]].
  - unfold __init__. cbn [comprehension]. rewrite Ha, Hb, Hc. cbn [rbind].
    rewrite Htree. reflexivity.
  - apply hash_data_concat; assumption.
  - apply hash_data_concat; assumption.
  - apply hash_data_concat; apply node_ascii.
  - generalize (node ha hb) (node hc hc). intros n1 n2.
    generalize (node n1 n2). intros root. reflexivity.
  - generalize (node ha hb) (node hc hc). intros n1 n2.
    generalize (node n1 n2). intros root. reflexivity.
Qed.

Lemma three_leaves_duplicate_last_witness :
  exists (self : MerkleTree) (n1 n2 root : pystr),
    __init__ records_abc = Ok self /\
    _hash_data (RStr (SHA256.hexdigest (ascii_text "a")
                        ++ SHA256.hexdigest (ascii_text "b"))) = Ok n1 /\
    _hash_data (RStr (SHA256.hexdigest (ascii_text "c")
                        ++ SHA256.hexdigest (ascii_text "c"))) = Ok n2 /\
    _hash_data (RStr (n1 ++ n2)) = Ok root /\
    get_level_nodes self 1 = Ok [n1; n2] /\
    get_root self = Ok (Some root).
Proof.
  apply (three_leaves_duplicate_last
           (RStr (ascii_text "a")) (RStr (ascii_text "b")) (RStr (ascii_text "c"))).
  - vm_compute; reflexivity.
  - vm_compute; reflexivity.
  - vm_compute; reflexivity.
Defined.

(** C9: on a freshly constructed tree, for every leaf index in
    [0, leafCount) and every new record, [test_immutability] leaves
    [self.leaves] and [self.tree] as they were before the call; it returns
    a boolean whenever the new record can be hashed. *)
Theorem test_immutability_restores_state (data_list : list record)
    (self : MerkleTree) (index : Z) (new_value : record) :
  __init__ data_list = Ok self ->
  0 <= index < len (leaves self) ->
  leaves (snd (test_immutability index new_value self)) = leaves self /\
  tree (snd (test_immutability index new_value self)) = tree self /\
  (forall h, _hash_data new_value = Ok h ->
     exists b, fst (test_immutability index new_value self) = Ok b).
Proof.
  intros Hinit Hindex.
  destruct (init_inv _ _ Hinit) as (_ & Htree & Hascii & Hbuilt).
  destruct (_hash_data new_value) as [h|e] eqn:Hnew.
  - destruct (test_immutability_run self index new_value h
                Hascii Hbuilt Htree Hindex Hnew) as (b & ->).
    cbn [fst snd]. repeat split. intros _ _. exists b. reflexivity.
  - rewrite (test_immutability_raise self index new_value e Hbuilt Hindex Hnew).
    cbn [fst snd]. repeat split. intros h Hh. discriminate.
Qed.

Lemma test_immutability_restores_state_witness :
  (__init__ records_abc = Ok tree_abc /\ 0 <= 2 < len (leaves tree_abc)) /\
  leaves (snd (test_immutability 2 (RStr (ascii_text "z")) tree_abc))
    = leaves tree_abc /\
  tree (snd (test_immutability 2 (RStr (ascii_text "z")) tree_abc))
    = tree tree_abc /\
  (forall h, _hash_data (RStr (ascii_text "z")) = Ok h ->
     exists b, fst (test_immutability 2 (RStr (ascii_text "z")) tree_abc) = Ok b).
Proof.
  assert (Hinit : __init__ records_abc = Ok tree_abc) by (vm_compute; reflexivity).
  assert (Hindex : 0 <= 2 < len (leaves tree_abc)) by evaluate.
  split; [split; assumption|].
  exact (test_immutability_restores_state records_abc tree_abc 2
           (RStr (ascii_text "z")) Hinit Hindex).
Defined.

(** C10: a proof step whose position is neither 'left' nor 'right' leaves
    the running hash unchanged, without raising; so for every record that
    can be hashed, [verify_proof(record, proof, hash(record))] is true
    when every step of [proof] is of that kind. *)
Theorem verify_proof_skips_malformed_steps :
  (forall (current_hash : pystr) (sibling : proof_step),
     position sibling <> str_left -> position sibling <> str_right ->
     verify_step current_hash sibling = Ok current_hash) /\
  (forall (leaf : record) (h : pystr) (proof : list proof_step),
     _hash_data leaf = Ok h ->
     Forall (fun sibling => position sibling <> str_left /\
                            position sibling <> str_right) proof ->
     verify_proof leaf proof (Some h) = Ok true).
Proof.
  assert (Hstep : forall (current_hash : pystr) (sibling : proof_step),
     position sibling <> str_left -> position sibling <> str_right ->
     verify_step current_hash sibling = Ok current_hash).
  { intros cur s Hl Hr. unfold verify_step.
    rewrite (bool_decide_eq_false_2 _ Hl), (bool_decide_eq_false_2 _ Hr).
    reflexivity. }
  split; [exact Hstep|].
  intros leaf h proof Hh Hall. unfold verify_proof. rewrite Hh. cbn [rbind].
  assert (Hloop : verify_loop h proof = Ok h).
  { induction Hall as [|s rest [Hl Hr] _ IH]; [reflexivity|].
    cbn [verify_loop]. rewrite (Hstep h s Hl Hr). cbn [rbind]. exact IH. }
  rewrite Hloop. cbn [rbind].
  rewrite bool_decide_eq_true_2 by reflexivity. reflexivity.
Qed.

Lemma verify_proof_skips_malformed_steps_witness :
  Forall (fun sibling => position sibling <> str_left /\
                         position sibling <> str_right) malformed_proof /\
  verify_step (ascii_text "ab")
    {| hash := ascii_text "00"; position := ascii_text "up" |}
    = Ok (ascii_text "ab") /\
  verify_proof (RStr (ascii_text "a")) malformed_proof
    (Some (SHA256.hexdigest (ascii_text "a"))) = Ok true.
Proof.
  assert (Hall : Forall (fun sibling => position sibling <> str_left /\
                                        position sibling <> str_right)
                        malformed_proof).
  { repeat constructor; vm_compute; discriminate. }
  split; [exact Hall|]. split.
  - apply (proj1 verify_proof_skips_malformed_steps); vm_compute; discriminate.
  - apply (proj2 verify_proof_skips_malformed_steps); [vm_compute; reflexivity | exact Hall].
Defined.

(** * Further properties of the class *)

(** ** Arithmetic of the sibling index *)

Lemma lxor_one_even (q : Z) : 0 <= q -> Z.lxor (2 * q) 1 = 2 * q + 1.
Proof. intros Hq. destruct q as [|p|p]; [reflexivity | reflexivity | lia]. Qed.

Lemma lxor_one_odd (q : Z) : 0 <= q -> Z.lxor (2 * q + 1) 1 = 2 * q.
Proof. intros Hq. destruct q as [|p|p]; [reflexivity | reflexivity | lia]. Qed.

Lemma ceil_half_bounds (n : nat) :
  (n <= 2 * ceil_half n)%nat /\ (2 * ceil_half n <= n + 1)%nat.
Proof.
  unfold ceil_half. rewrite Nat.div2_div.
  pose proof (Nat.div_mod_eq (S n) 2) as Hdiv.
  pose proof (Nat.mod_upper_bound (S n) 2 ltac:(lia)) as Hmod. lia.
Qed.

Lemma str_left_right_distinct : str_left <> str_right.
Proof. vm_compute. discriminate. Qed.

Lemma comprehension_lookup {A B : Type} (f : A -> result B) (xs : list A)
    (ys : list B) (n : nat) (x : A) :
  comprehension f xs = Ok ys -> xs !! n = Some x ->
  exists y, ys !! n = Some y /\ f x = Ok y.
Proof.
  revert ys n. induction xs as [|x0 xs IH]; intros ys n Hys Hx; [discriminate|].
  simpl in Hys. inv_bind Hys. inv_bind Hys. injection Hys as <-.
  destruct n as [|n].
  - simpl in Hx. injection Hx as ->. eauto.
  - simpl in Hx |- *. eapply IH; eassumption.
Qed.

Lemma lookup_ascii (l : list pystr) (n : nat) (x : pystr) :
  Forall is_ascii l -> l !! n = Some x -> is_ascii x.
Proof.
  intros Hall Hx. rewrite List.Forall_forall in Hall.
  apply Hall, list_elem_of_In. eapply list_elem_of_lookup_2. exact Hx.
Qed.

(** ** The proof of a leaf whose path is paired at every level *)

(** One level of the walk: the step emitted by [get_proof] turns the
    node's digest into its parent's digest under [verify_step]. *)
Lemma paired_step_verifies (l : list pystr) (i : Z) (h : pystr) :
  Forall is_ascii l -> 0 <= i -> l !! Z.to_nat i = Some h ->
  Z.lxor i 1 < len l ->
  exists s parent,
    getitem l (Z.lxor i 1) = Ok s /\
    pair_up l !! Z.to_nat (i / 2) = Some parent /\
    verify_step h {| hash := s;
                     position := if Z.lxor i 1 <? i then str_left else str_right |}
      = Ok parent.
Proof.
  intros Hascii Hi Hh Hsib.
  destruct (Z.Even_or_Odd i) as [[q ->] | [q ->]].
  - assert (Hq : 0 <= q) by lia.
    rewrite lxor_one_even in * by assumption.
    destruct (getitem_in_range l (2 * q + 1)) as (s & Hs & Hget); [lia|].
    replace (2 * q / 2) with q by (rewrite Z.mul_comm, Z.div_mul; lia).
    replace (Z.to_nat (2 * q)) with (2 * Z.to_nat q)%nat in Hh by lia.
    replace (Z.to_nat (2 * q + 1)) with (2 * Z.to_nat q + 1)%nat in Hs by lia.
    pose proof (pair_up_lookup l (Z.to_nat q) h Hh) as Hparent.
    rewrite Hs in Hparent. cbn [from_option id] in Hparent.
    exists s, (node h s). split; [assumption|]. split; [assumption|].
    destruct (Z.ltb_spec (2 * q + 1) (2 * q)); [lia|].
    unfold verify_step. cbn [position hash].
    rewrite bool_decide_eq_false_2
      by (intros Heq; apply str_left_right_distinct; symmetry; exact Heq).
    rewrite bool_decide_eq_true_2 by reflexivity.
    apply hash_data_concat; eapply lookup_ascii; eassumption.
  - assert (Hq : 0 <= q) by lia.
    rewrite lxor_one_odd in * by assumption.
    destruct (getitem_in_range l (2 * q)) as (s & Hs & Hget); [lia|].
    replace ((2 * q + 1) / 2) with q
      by (apply (Z.div_unique_pos (2 * q + 1) 2 q 1); lia).
    replace (Z.to_nat (2 * q + 1)) with (2 * Z.to_nat q + 1)%nat in Hh by lia.
    replace (Z.to_nat (2 * q)) with (2 * Z.to_nat q)%nat in Hs by lia.
    pose proof (pair_up_lookup l (Z.to_nat q) s Hs) as Hparent.
    rewrite Hh in Hparent. cbn [from_option id] in Hparent.
    exists s, (node s h). split; [assumption|]. split; [assumption|].
    destruct (Z.ltb_spec (2 * q) (2 * q + 1)); [|lia].
    unfold verify_step. cbn [position hash].
    rewrite bool_decide_eq_true_2 by reflexivity.
    apply hash_data_concat; eapply lookup_ascii; eassumption.
Qed.

Lemma paired_path_cons (l : list pystr) (above : list (list pystr)) (i : Z) :
  above <> [] ->
  paired_path (l :: above) i = (Z.lxor i 1 <? len l) && paired_path above (i / 2).
Proof. destruct above; [congruence | reflexivity]. Qed.

Lemma proof_loop_verifies (self : MerkleTree) (l : list pystr)
    (levels : list (list pystr)) :
  built l levels ->
  forall (before : list (list pystr)) (i : Z) (h : pystr)
         (proof0 : list proof_step),
    tree self = before ++ levels ->
    Forall is_ascii l ->
    0 <= i ->
    l !! Z.to_nat i = Some h ->
    paired_path levels i = true ->
    exists (i' : Z) (steps : list proof_step) (root : pystr),
      for_loop (map (fun k => 0 + 1 * Z.of_nat k)
                    (seq (length before) (length levels - 1)))
        (proof_body self) (i, proof0) = Ok (i', proof0 ++ steps) /\
      last levels = Some [root] /\
      verify_loop h steps = Ok root /\
      length steps = (length levels - 1)%nat.
Proof.
  induction 1 as [l Hshort | l above Hlong Habove IH];
    intros before i h proof0 Htree Hascii Hi Hh Hpath.
  - exists i, [], h. cbn [length Nat.sub seq map for_loop].
    rewrite app_nil_r. repeat split.
    destruct l as [|x [|y l]]; [discriminate | | simpl in Hshort; lia].
    destruct (Z.to_nat i); [|discriminate].
    simpl in Hh. injection Hh as ->. reflexivity.
  - destruct (built_head _ _ Habove) as (rest & Hrest).
    rewrite paired_path_cons in Hpath by (rewrite Hrest; discriminate).
    apply andb_prop in Hpath. destruct Hpath as [Hsib Hpath].
    apply Z.ltb_lt in Hsib.
    destruct (paired_step_verifies l i h Hascii Hi Hh Hsib)
      as (s & parent & Hget & Hparent & Hverify).
    assert (Hhalf : 0 <= i / 2) by (apply Z.div_pos; lia).
    destruct (IH (before ++ [l]) (i / 2) parent
                (proof0 ++ [{| hash := s;
                               position := if Z.lxor i 1 <? i
                                           then str_left else str_right |}]))
      as (i' & steps & root & Hloop & Hlast & Hrun & Hlen).
    + rewrite Htree, <- app_assoc. reflexivity.
    + apply pair_up_ascii.
    + exact Hhalf.
    + exact Hparent.
    + exact Hpath.
    + exists i', ({| hash := s;
                    position := if Z.lxor i 1 <? i then str_left else str_right |}
                  :: steps), root.
      split; [|split; [|split]].
      * replace (length (l :: above) - 1)%nat with (S (length above - 1))
          by (rewrite Hrest; simpl; lia).
        cbn [seq map for_loop]. unfold proof_body at 1.
        replace (0 + 1 * Z.of_nat (length before)) with (Z.of_nat (length before)) by lia.
        rewrite (getitem_lookup (tree self) (length before) l)
          by (rewrite Htree; apply list_lookup_middle; reflexivity).
        cbn [rbind]. apply Z.ltb_lt in Hsib. rewrite Hsib.
        rewrite Hget. cbn [rbind].
        rewrite length_app in Hloop. cbn [length] in Hloop.
        replace (length before + 1)%nat with (S (length before)) in Hloop by lia.
        rewrite Hloop, <- app_assoc. reflexivity.
      * rewrite Hrest. rewrite Hrest in Hlast. exact Hlast.
      * cbn [verify_loop]. rewrite Hverify. cbn [rbind]. exact Hrun.
      * rewrite Hrest. rewrite Hrest in Hlen. simpl in Hlen |- *. lia.
Qed.

Lemma range_levels (n : nat) :
  py_range 0 (Z.of_nat n - 1) 1
  = map (fun k => 0 + 1 * Z.of_nat k) (seq 0 (n - 1)).
Proof.
  unfold py_range. change (0 <? 1) with true. cbv iota.
  rewrite Z.div_1_r. f_equal. f_equal. lia.
Qed.

(** The proof returned for a paired path has one step per level below
    the root and is accepted. *)
Lemma paired_path_roundtrip (data_list : list record)
    (self : MerkleTree) (index : Z) (leaf : record) :
  __init__ data_list = Ok self ->
  0 <= index ->
  data_list !! Z.to_nat index = Some leaf ->
  paired_path (tree self) index = true ->
  exists (proof : list proof_step) (root : pystr),
    get_proof self index = Ok proof /\
    get_root self = Ok (Some root) /\
    verify_proof leaf proof (Some root) = Ok true /\
    len proof = get_tree_height self - 1.
Proof.
  intros Hinit Hindex Hleaf Hpath.
  destruct (init_inv _ _ Hinit) as (Hleaves & _ & Hascii & Hbuilt).
  destruct (comprehension_lookup _ _ _ _ _ Hleaves Hleaf) as (h & Hh & Hhash).
  pose proof (lookup_lt_Some _ _ _ Hh) as Hlt.
  destruct (proof_loop_verifies self _ _ Hbuilt [] index h [])
    as (i' & steps & root & Hloop & Hlast & Hrun & Hlen);
    [reflexivity | assumption.. |].
  assert (Hne : leaves self <> []) by (destruct (leaves self); [simpl in Hlt; lia | congruence]).
  destruct (get_root_built self Hbuilt Hne) as (root' & Hlast' & Hroot).
  assert (root' = root) as -> by congruence.
  exists steps, root. split; [|split; [|split]].
  - unfold get_proof, len.
    destruct (Z.ltb_spec index 0); [lia|].
    destruct (Z.leb_spec (Z.of_nat (length (leaves self))) index); [lia|].
    cbn [orb]. rewrite range_levels.
    cbn [length] in Hloop. rewrite Hloop. reflexivity.
  - exact Hroot.
  - unfold verify_proof. rewrite Hhash. cbn [rbind]. rewrite Hrun. cbn [rbind].
    rewrite bool_decide_eq_true_2 by reflexivity. reflexivity.
  - unfold get_tree_height, len. rewrite Hlen.
    destruct (built_head _ _ Hbuilt) as (above & ->). simpl. lia.
Qed.

(** X1: on a constructed tree, for a leaf index whose XOR-1 sibling lies
    inside the level at every level of the walk to the root, the proof
    that [get_proof] returns has one step per level below the root, and
    [verify_proof] accepts it for the record at that index and the root
    that [get_root] returns. *)
Theorem proof_roundtrip_on_paired_path (data_list : list record)
    (self : MerkleTree) (index : Z) (leaf : record) :
  __init__ data_list = Ok self ->
  0 <= index ->
  data_list !! Z.to_nat index = Some leaf ->
  paired_path (tree self) index = true ->
  (do proof <- get_proof self index;
   do root <- get_root self;
   do valid <- verify_proof leaf proof root;
   Ok (len proof, valid))
  = Ok (get_tree_height self - 1, true).
Proof.
  intros Hinit Hindex Hleaf Hpath.
  destruct (paired_path_roundtrip data_list self index leaf Hinit Hindex Hleaf Hpath)
    as (proof & root & -> & -> & Hverify & Hlen).
  cbn [rbind]. rewrite Hverify. cbn [rbind]. rewrite Hlen. reflexivity.
Qed.

Lemma proof_roundtrip_on_paired_path_witness :
  (__init__ records_abc = Ok tree_abc /\ 0 <= 1 /\
   records_abc !! Z.to_nat 1 = Some (RStr (ascii_text "b")) /\
   paired_path (tree tree_abc) 1 = true) /\
  (do proof <- get_proof tree_abc 1;
   do root <- get_root tree_abc;
   do valid <- verify_proof (RStr (ascii_text "b")) proof root;
   Ok (len proof, valid))
  = Ok (get_tree_height tree_abc - 1, true).
Proof.
  assert (Hinit : __init__ records_abc = Ok tree_abc) by (vm_compute; reflexivity).
  assert (Hindex : 0 <= 1) by evaluate.
  assert (Hleaf : records_abc !! Z.to_nat 1 = Some (RStr (ascii_text "b")))
    by reflexivity.
  assert (Hpath : paired_path (tree tree_abc) 1 = true) by (vm_compute; reflexivity).
  split; [repeat split; assumption|].
  exact (proof_roundtrip_on_paired_path records_abc tree_abc 1
           (RStr (ascii_text "b")) Hinit Hindex Hleaf Hpath).
Defined.

(** ** Which paths are paired *)

Lemma built_paired_first (l : list pystr) (levels : list (list pystr)) :
  built l levels -> l <> [] -> paired_path levels 0 = true.
Proof.
  induction 1 as [l _ | l above Hlong Habove IH]; intros Hne; [reflexivity|].
  destruct (built_head _ _ Habove) as (rest & Hrest).
  rewrite paired_path_cons by (rewrite Hrest; discriminate).
  change (0 / 2) with 0. rewrite IH by (apply pair_up_nonempty, Hne).
  change (Z.lxor 0 1) with 1.
  destruct (Z.ltb_spec 1 (len l)); [reflexivity | unfold len in *; lia].
Qed.

Lemma ceil_half_double (n : nat) : ceil_half (2 * n) = n.
Proof. unfold ceil_half. apply Nat.div2_succ_double. Qed.

Lemma built_paired_power_of_two (k : nat) :
  forall (l : list pystr) (levels : list (list pystr)) (i : Z),
    built l levels -> length l = (2 ^ k)%nat -> 0 <= i < len l ->
    paired_path levels i = true.
Proof.
  induction k as [|k IH]; intros l levels i Hbuilt Hlen Hi.
  - inversion Hbuilt as [? _ | ? above Hlong _]; subst; [reflexivity|].
    simpl in Hlen. lia.
  - assert (Hpow : (2 ^ S k = 2 * 2 ^ k)%nat) by (simpl; lia).
    assert (Hpos : (0 < 2 ^ k)%nat)
      by (pose proof (Nat.pow_nonzero 2 k ltac:(lia)); lia).
    inversion Hbuilt as [? Hshort | ? above Hlong Habove]; subst; [lia|].
    destruct (built_head _ _ Habove) as (rest & Hrest).
    rewrite paired_path_cons by (rewrite Hrest; discriminate).
    unfold len in *.
    assert (Hhalf : 0 <= i / 2 < Z.of_nat (2 ^ k)).
    { split; [apply Z.div_pos; lia | apply Z.div_lt_upper_bound; lia]. }
    rewrite (IH (pair_up l) above (i / 2) Habove).
    + rewrite andb_true_r. apply Z.ltb_lt.
      destruct (Z.Even_or_Odd i) as [[q ->] | [q ->]].
      * rewrite lxor_one_even by lia. lia.
      * rewrite lxor_one_odd by lia. lia.
    + rewrite pair_up_length, Hlen, Hpow. apply ceil_half_double.
    + rewrite pair_up_length, Hlen, Hpow, ceil_half_double. exact Hhalf.
Qed.

(** X2: when the number of records is a power of two, the round trip holds
    at every leaf index: [verify_proof(records[i], get_proof(i),
    get_root())] is true. *)
Theorem proof_roundtrip_power_of_two (data_list : list record)
    (self : MerkleTree) (k : nat) (index : Z) (leaf : record) :
  __init__ data_list = Ok self ->
  length data_list = (2 ^ k)%nat ->
  0 <= index ->
  data_list !! Z.to_nat index = Some leaf ->
  (do proof <- get_proof self index;
   do root <- get_root self;
   verify_proof leaf proof root) = Ok true.
Proof.
  intros Hinit Hlen Hindex Hleaf.
  destruct (init_inv _ _ Hinit) as (Hleaves & _ & _ & Hbuilt).
  pose proof (comprehension_length _ _ _ Hleaves) as Hsame.
  pose proof (lookup_lt_Some _ _ _ Hleaf) as Hlt.
  assert (Hpath : paired_path (tree self) index = true).
  { apply (built_paired_power_of_two k (leaves self)); [assumption | lia |].
    unfold len. lia. }
  destruct (paired_path_roundtrip data_list self index leaf Hinit Hindex Hleaf Hpath)
    as (proof & root & -> & -> & Hverify & _).
  cbn [rbind]. exact Hverify.
Qed.

Lemma proof_roundtrip_power_of_two_witness :
  (__init__ records_ab = Ok tree_ab /\ length records_ab = (2 ^ 1)%nat /\
   0 <= 1 /\ records_ab !! Z.to_nat 1 = Some (RStr (ascii_text "b"))) /\
  (do proof <- get_proof tree_ab 1;
   do root <- get_root tree_ab;
   verify_proof (RStr (ascii_text "b")) proof root) = Ok true.
Proof.
  assert (Hinit : __init__ records_ab = Ok tree_ab) by (vm_compute; reflexivity).
  assert (Hlen : length records_ab = (2 ^ 1)%nat) by reflexivity.
  assert (Hindex : 0 <= 1) by evaluate.
  assert (Hleaf : records_ab !! Z.to_nat 1 = Some (RStr (ascii_text "b")))
    by reflexivity.
  split; [repeat split; assumption|].
  exact (proof_roundtrip_power_of_two records_ab tree_ab 1 1
           (RStr (ascii_text "b")) Hinit Hlen Hindex Hleaf).
Defined.

(** X3: whatever the number of records, the first record always verifies:
    index 0 is never the unpaired last node of a level below the root. *)
Theorem proof_roundtrip_first_record (data_list : list record)
    (self : MerkleTree) (leaf : record) :
  __init__ data_list = Ok self ->
  data_list !! 0%nat = Some leaf ->
  (do proof <- get_proof self 0;
   do root <- get_root self;
   verify_proof leaf proof root) = Ok true.
Proof.
  intros Hinit Hleaf.
  destruct (init_inv _ _ Hinit) as (Hleaves & _ & _ & Hbuilt).
  destruct (comprehension_lookup _ _ _ _ _ Hleaves Hleaf) as (h & Hh & _).
  assert (Hpath : paired_path (tree self) 0 = true).
  { apply (built_paired_first _ _ Hbuilt). intros Hnil. rewrite Hnil in Hh. discriminate. }
  destruct (paired_path_roundtrip data_list self 0 leaf Hinit ltac:(lia) Hleaf Hpath)
    as (proof & root & -> & -> & Hverify & _).
  cbn [rbind]. exact Hverify.
Qed.

Lemma proof_roundtrip_first_record_witness :
  (__init__ records_abc = Ok tree_abc /\
   records_abc !! 0%nat = Some (RStr (ascii_text "a"))) /\
  (do proof <- get_proof tree_abc 0;
   do root <- get_root tree_abc;
   verify_proof (RStr (ascii_text "a")) proof root) = Ok true.
Proof.
  assert (Hinit : __init__ records_abc = Ok tree_abc) by (vm_compute; reflexivity).
  assert (Hleaf : records_abc !! 0%nat = Some (RStr (ascii_text "a"))) by reflexivity.
  split; [split; assumption|].
  exact (proof_roundtrip_first_record records_abc tree_abc
           (RStr (ascii_text "a")) Hinit Hleaf).
Defined.

(** ** The shape of generated proofs *)

Lemma proof_loop_shape (self : MerkleTree) (levels : list Z) :
  forall st st' : Z * list proof_step,
    for_loop levels (proof_body self) st = Ok st' ->
    exists steps,
      snd st' = snd st ++ steps /\
      (length steps <= length levels)%nat /\
      Forall well_formed_step steps.
Proof.
  induction levels as [|level rest IH]; intros [index proof] st' Hloop.
  - injection Hloop as <-. exists []. cbn [snd]. rewrite app_nil_r.
    split; [reflexivity|]. split; [simpl; lia | constructor].
  - cbn [for_loop] in Hloop. apply rbind_ok_inv in Hloop.
    destruct Hloop as ([index1 proof1] & Hbody & Hloop).
    apply IH in Hloop. destruct Hloop as (steps & Hsteps & Hlen & Hall).
    cbn [snd] in Hsteps |- *.
    unfold proof_body in Hbody. inv_bind Hbody. inv_bind Hbody.
    injection Hbody as <- <-.
    destruct (Z.lxor index 1 <? len a).
    + inv_bind Ha0. injection Ha0 as <-.
      exists ({| hash := a1;
                 position := if Z.lxor index 1 <? index
                             then str_left else str_right |} :: steps).
      split; [rewrite Hsteps, <- app_assoc; reflexivity|].
      split; [simpl; lia|].
      constructor; [|assumption]. unfold well_formed_step. cbn [position].
      destruct (Z.lxor index 1 <? index); [left | right]; reflexivity.
    + injection Ha0 as <-. exists steps.
      split; [assumption|]. split; [simpl; lia | assumption].
Qed.



(** ** The height of a built tree *)

Lemma built_height (l : list pystr) (levels : list (list pystr)) :
  built l levels ->
  len l <= 2 ^ (len levels - 1) /\
  (2 <= len levels -> 2 ^ (len levels - 2) < len l).
Proof.
  unfold len. induction 1 as [l Hshort | l above Hlong Habove [IHup IHlow]].
  - cbn [length]. change (Z.of_nat 1 - 1) with 0. split; [simpl; lia | lia].
  - destruct (built_head _ _ Habove) as (rest & Hrest).
    rewrite pair_up_length in IHup, IHlow.
    pose proof (ceil_half_bounds (length l)) as [Hlo Hhi].
    assert (Hlen : Z.of_nat (length (l :: above)) = Z.of_nat (length above) + 1)
      by (cbn [length]; lia).
    assert (Hpos : 1 <= Z.of_nat (length above)) by (rewrite Hrest; cbn [length]; lia).
    rewrite Hlen. split.
    + replace (Z.of_nat (length above) + 1 - 1)
        with (Z.succ (Z.of_nat (length above) - 1)) by lia.
      rewrite Z.pow_succ_r by lia. lia.
    + intros _.
      destruct (Z.eq_dec (Z.of_nat (length above)) 1) as [Hone | Hmore].
      * rewrite Hone. change (2 ^ (1 + 1 - 2)) with 1. lia.
      * specialize (IHlow ltac:(lia)).
        replace (Z.of_nat (length above) + 1 - 2)
          with (Z.succ (Z.of_nat (length above) - 2)) by lia.
        rewrite Z.pow_succ_r by lia. lia.
Qed.

(** X5: the height of a constructed tree is logarithmic in the number [n]
    of records: [n <= 2 ^ (height - 1)], and when the tree has at least two
    levels, [2 ^ (height - 2) < n]. *)
Theorem tree_height_logarithmic (data_list : list record) (self : MerkleTree) :
  __init__ data_list = Ok self ->
  len data_list <= 2 ^ (get_tree_height self - 1) /\
  (2 <= get_tree_height self -> 2 ^ (get_tree_height self - 2) < len data_list).
Proof.
  intros Hinit. destruct (init_inv _ _ Hinit) as (Hleaves & _ & _ & Hbuilt).
  apply comprehension_length in Hleaves.
  unfold get_tree_height.
  replace (len data_list) with (len (leaves self)) by (unfold len; lia).
  exact (built_height _ _ Hbuilt).
Qed.

Lemma tree_height_logarithmic_witness :
  __init__ records_abc = Ok tree_abc /\
  len records_abc <= 2 ^ (get_tree_height tree_abc - 1) /\
  (2 <= get_tree_height tree_abc ->
   2 ^ (get_tree_height tree_abc - 2) < len records_abc).
Proof.
  assert (Hinit : __init__ records_abc = Ok tree_abc) by (vm_compute; reflexivity).
  split; [assumption|].
  exact (tree_height_logarithmic records_abc tree_abc Hinit).
Defined.

(** ** Access to levels *)

(** X6: [get_level_nodes(level)] raises, and then IndexError, exactly when
    [level < 0] or [level >= height]; a negative level is never read from
    the end of the list.  Inside the range it returns the stored level. *)
Theorem get_level_nodes_bounds (self : MerkleTree) (level : Z) :
  ((exists e, get_level_nodes self level = Raise e) <->
   level < 0 \/ get_tree_height self <= level) /\
  (level < 0 \/ get_tree_height self <= level ->
   get_level_nodes self level = Raise IndexError) /\
  (0 <= level < get_tree_height self ->
   exists nodes, tree self !! Z.to_nat level = Some nodes /\
                 get_level_nodes self level = Ok nodes).
Proof.
  unfold get_level_nodes, get_tree_height.
  assert (Hout : level < 0 \/ len (tree self) <= level ->
    (if (level <? 0) || (len (tree self) <=? level)
     then Raise IndexError else getitem (tree self) level) = Raise IndexError).
  { intros [Hneg|Hbig].
    - destruct (Z.ltb_spec level 0); [reflexivity | lia].
    - destruct (Z.leb_spec (len (tree self)) level); [|lia].
      rewrite orb_true_r. reflexivity. }
  assert (Hin : 0 <= level < len (tree self) ->
    exists nodes, tree self !! Z.to_nat level = Some nodes /\
      (if (level <? 0) || (len (tree self) <=? level)
       then Raise IndexError else getitem (tree self) level) = Ok nodes).
  { intros Hlevel.
    destruct (Z.ltb_spec level 0); [lia|].
    destruct (Z.leb_spec (len (tree self)) level); [lia|].
    cbn [orb]. apply getitem_in_range. exact Hlevel. }
  split; [|split; assumption]. split.
  - intros (e & He).
    destruct (Z.lt_ge_cases level 0) as [|Hlo]; [left; assumption|].
    destruct (Z.le_gt_cases (len (tree self)) level) as [|Hhi]; [right; assumption|].
    destruct Hin as (nodes & _ & Hnodes); [lia|]. congruence.
  - intros Hrange. exists IndexError. apply Hout, Hrange.
Qed.

Lemma get_level_nodes_bounds_witness :
  get_level_nodes tree_abc (-1) = Raise IndexError /\
  get_level_nodes tree_abc 3 = Raise IndexError /\
  exists nodes, tree tree_abc !! Z.to_nat 2 = Some nodes /\
                get_level_nodes tree_abc 2 = Ok nodes.
Proof.
  split; [|split].
  - apply (proj1 (proj2 (get_level_nodes_bounds tree_abc (-1)))). left. evaluate.
  - apply (proj1 (proj2 (get_level_nodes_bounds tree_abc 3))). right. evaluate.
  - apply (proj2 (proj2 (get_level_nodes_bounds tree_abc 2))). evaluate.
Defined.

Lemma get_level_nodes_top_aux {A : Type} (l : list A) (x : A) :
  last l = Some x ->
  l !! Z.to_nat (len l - 1) = Some x /\ 0 <= len l - 1.
Proof.
  intros Hlast. rewrite last_lookup in Hlast.
  pose proof (lookup_lt_Some _ _ _ Hlast) as Hlt. unfold len.
  replace (Z.to_nat (Z.of_nat (length l) - 1)) with (pred (length l)) by lia.
  split; [assumption | lia].
Qed.

(** X7: on a tree constructed from a non-empty record list, level 0 is the
    list of the records' digests in input order, and the top level
    (level [height - 1]) holds exactly the root that [get_root] returns. *)
Theorem get_level_nodes_bottom_and_top (data_list : list record)
    (self : MerkleTree) :
  __init__ data_list = Ok self ->
  data_list <> [] ->
  get_level_nodes self 0 = comprehension _hash_data data_list /\
  exists root,
    get_root self = Ok (Some root) /\
    get_level_nodes self (get_tree_height self - 1) = Ok [root].
Proof.
  intros Hinit Hdata.
  destruct (init_inv _ _ Hinit) as (Hleaves & _ & _ & Hbuilt).
  destruct (built_head _ _ Hbuilt) as (above & Htree).
  assert (Hne : leaves self <> []).
  { intros Hnil. apply comprehension_length in Hleaves. rewrite Hnil in Hleaves.
    destruct data_list; [congruence | discriminate]. }
  destruct (get_root_built self Hbuilt Hne) as (root & Hlast & Hroot).
  split.
  - rewrite Hleaves. unfold get_level_nodes. rewrite Htree. reflexivity.
  - exists root. split; [assumption|].
    destruct (get_level_nodes_top_aux (tree self) [root]) as [Hlookup Hrange];
      [assumption|].
    unfold get_level_nodes, get_tree_height.
    destruct (Z.ltb_spec (len (tree self) - 1) 0); [lia|].
    destruct (Z.leb_spec (len (tree self)) (len (tree self) - 1)); [lia|].
    cbn [orb]. apply getitem_lookup_Z; [lia | assumption].
Qed.

Lemma get_level_nodes_bottom_and_top_witness :
  (__init__ records_abc = Ok tree_abc /\ records_abc <> []) /\
  get_level_nodes tree_abc 0 = comprehension _hash_data records_abc /\
  exists root,
    get_root tree_abc = Ok (Some root) /\
    get_level_nodes tree_abc (get_tree_height tree_abc - 1) = Ok [root].
Proof.
  assert (Hinit : __init__ records_abc = Ok tree_abc) by (vm_compute; reflexivity).
  assert (Hne : records_abc <> []) by discriminate.
  split; [split; assumption|].
  exact (get_level_nodes_bottom_and_top records_abc tree_abc Hinit Hne).
Defined.

(** ** The format of digests *)

Lemma big_endian_length (n : nat) (x : Z) : length (SHA256.big_endian n x) = n.
Proof.
  revert x. induction n as [|n IH]; intros x; simpl; [reflexivity|].
  rewrite length_app, IH. simpl. lia.
Qed.

Lemma hexdigest_length (msg : list Z) : length (SHA256.hexdigest msg) = 64%nat.
Proof.
  unfold SHA256.hexdigest.
  rewrite List.flat_map_constant_length with (c := 2%nat) by reflexivity.
  unfold SHA256.digest.
  rewrite List.flat_map_constant_length with (c := 4%nat)
    by (intros; apply big_endian_length).
  reflexivity.
Qed.

Lemma hex_digit_is_hex (d : Z) : 0 <= d < 16 -> is_hex_char (SHA256.hex_digit d).
Proof.
  intros Hd. unfold is_hex_char, SHA256.hex_digit.
  destruct (Z.ltb_spec d 10); lia.
Qed.

Lemma hexdigest_is_hex (msg : list Z) : Forall is_hex_char (SHA256.hexdigest msg).
Proof.
  unfold SHA256.hexdigest. apply List.Forall_forall. intros c Hc.
  apply List.in_flat_map in Hc. destruct Hc as (b & Hb & Hc).
  pose proof (digest_bytes msg) as Hall.
  rewrite List.Forall_forall in Hall. specialize (Hall b Hb).
  simpl in Hc. destruct Hc as [<- | [<- | []]]; apply hex_digit_is_hex.
  - split; [apply Z.div_pos; lia | apply Z.div_lt_upper_bound; lia].
  - apply Z.mod_pos_bound. lia.
Qed.

(** X8: whenever [_hash_data] returns, its value is a string of exactly 64
    lowercase hexadecimal digits, whatever the record. *)
Theorem hash_data_is_hex_of_length_64 (data : record) (h : pystr) :
  _hash_data data = Ok h ->
  len h = 64 /\ Forall is_hex_char h.
Proof.
  unfold _hash_data. intros H. inv_bind H.
  destruct a as [s|b]; simpl in H; [discriminate|].
  injection H as <-. split.
  - unfold len. rewrite hexdigest_length. reflexivity.
  - apply hexdigest_is_hex.
Qed.

Lemma hash_data_is_hex_of_length_64_witness :
  exists h, _hash_data (RStr (ascii_text "a")) = Ok h /\
            len h = 64 /\ Forall is_hex_char h.
Proof.
  eexists. split; [vm_compute; reflexivity|].
  apply (hash_data_is_hex_of_length_64 (RStr (ascii_text "a"))).
  vm_compute; reflexivity.
Defined.

(** ** When construction succeeds *)

Lemma comprehension_all_ok {A B : Type} (f : A -> result B) (xs : list A) :
  Forall (fun x => exists y, f x = Ok y) xs ->
  exists ys, comprehension f xs = Ok ys.
Proof.
  induction 1 as [|x xs (y & Hy) _ (ys & Hys)]; simpl.
  - eexists. reflexivity.
  - rewrite Hy, Hys. simpl. eexists. reflexivity.
Qed.

Lemma comprehension_ok_all {A B : Type} (f : A -> result B) (xs : list A)
    (ys : list B) :
  comprehension f xs = Ok ys -> Forall (fun x => exists y, f x = Ok y) xs.
Proof.
  revert ys. induction xs as [|x xs IH]; intros ys H; [constructor|].
  simpl in H. inv_bind H. inv_bind H. constructor; eauto.
Qed.

Lemma comprehension_first_failure {A B : Type} (f : A -> result B)
    (before rest : list A) (bad : A) (e : exn) :
  Forall (fun x => exists y, f x = Ok y) before ->
  f bad = Raise e ->
  comprehension f (before ++ bad :: rest) = Raise e.
Proof.
  induction 1 as [|x xs (y & Hy) _ IH]; intros Hbad; simpl.
  - rewrite Hbad. reflexivity.
  - rewrite Hy, (IH Hbad). reflexivity.
Qed.

(** X9: the constructor returns an instance exactly when every record can
    be hashed; building the levels from the digests never raises. *)
Theorem init_succeeds_iff_all_hashable (data_list : list record) :
  (exists self, __init__ data_list = Ok self) <-> Forall hashable data_list.
Proof.
  split.
  - intros (self & Hinit). unfold __init__ in Hinit. inv_bind Hinit.
    eapply comprehension_ok_all. eassumption.
  - intros Hall. destruct (comprehension_all_ok _ _ Hall) as (hs & Hhs).
    destruct (build_tree_built hs (comprehension_hash_ascii _ _ Hhs))
      as (levels & _ & Hlevels).
    exists {| leaves := hs; tree := levels |}.
    unfold __init__. rewrite Hhs. cbn [rbind]. rewrite Hlevels. reflexivity.
Qed.

(** X10: the constructor raises the exception of the first record that
    cannot be hashed; in particular a [dict] anywhere after hashable
    records makes it raise TypeError. *)
Theorem init_raises_first_failure (before rest : list record) (bad : record)
    (e : exn) :
  Forall hashable before ->
  _hash_data bad = Raise e ->
  __init__ (before ++ bad :: rest) = Raise e.
Proof.
  intros Hbefore Hbad. unfold __init__.
  rewrite (comprehension_first_failure _ before rest bad e Hbefore Hbad).
  reflexivity.
Qed.

Lemma init_raises_first_failure_witness :
  (Forall hashable [RStr (ascii_text "a")] /\
   _hash_data (RDict dict_ab) = Raise TypeError) /\
  __init__ ([RStr (ascii_text "a")] ++ RDict dict_ab :: [RStr (ascii_text "b")])
    = Raise TypeError.
Proof.
  assert (Hbefore : Forall hashable [RStr (ascii_text "a")]).
  { constructor; [|constructor]. eexists. vm_compute. reflexivity. }
  assert (Hbad : _hash_data (RDict dict_ab) = Raise TypeError) by reflexivity.
  split; [split; assumption|].
  exact (init_raises_first_failure [RStr (ascii_text "a")]
           [RStr (ascii_text "b")] (RDict dict_ab) TypeError Hbefore Hbad).
Defined.

(** ** The sibling of a paired leaf *)

(** X11: on a constructed tree, for a leaf index whose XOR-1 neighbour
    exists, [find_sibling] returns the digest of the neighbouring
    record. *)
Theorem find_sibling_is_neighbour_digest (data_list : list record)
    (self : MerkleTree) (index : Z) (neighbour : record) :
  __init__ data_list = Ok self ->
  0 <= index < len data_list ->
  data_list !! Z.to_nat (Z.lxor index 1) = Some neighbour ->
  exists h, _hash_data neighbour = Ok h /\ find_sibling self index = Ok (Some h).
Proof.
  intros Hinit Hindex Hneighbour.
  destruct (init_inv _ _ Hinit) as (Hleaves & _ & _ & Hbuilt).
  destruct (comprehension_lookup _ _ _ _ _ Hleaves Hneighbour) as (h & Hh & Hhash).
  pose proof (comprehension_length _ _ _ Hleaves) as Hlen.
  pose proof (lookup_lt_Some _ _ _ Hh) as Hlt.
  assert (Hsib : 0 <= Z.lxor index 1) by (apply Z.lxor_nonneg; lia).
  exists h. split; [assumption|].
  unfold find_sibling, len in *.
  destruct (Z.ltb_spec index 0); [lia|].
  destruct (Z.leb_spec (Z.of_nat (length (leaves self))) index); [lia|].
  cbn [orb].
  destruct (Z.ltb_spec (Z.lxor index 1) (Z.of_nat (length (leaves self)))); [|lia].
  destruct (built_head _ _ Hbuilt) as (above & ->).
  change (getitem (leaves self :: above) 0) with (Ok (A := list (list Z)) (leaves self)).
  cbn [rbind]. rewrite (getitem_lookup_Z _ _ _ Hsib Hh). reflexivity.
Qed.

Lemma find_sibling_is_neighbour_digest_witness :
  (__init__ records_abc = Ok tree_abc /\ 0 <= 1 < len records_abc /\
   records_abc !! Z.to_nat (Z.lxor 1 1) = Some (RStr (ascii_text "a"))) /\
  exists h, _hash_data (RStr (ascii_text "a")) = Ok h /\
            find_sibling tree_abc 1 = Ok (Some h).
Proof.
  assert (Hinit : __init__ records_abc = Ok tree_abc) by (vm_compute; reflexivity).
  assert (Hindex : 0 <= 1 < len records_abc) by evaluate.
  assert (Hn : records_abc !! Z.to_nat (Z.lxor 1 1) = Some (RStr (ascii_text "a")))
    by reflexivity.
  split; [split; [|split]; assumption|].
  exact (find_sibling_is_neighbour_digest records_abc tree_abc 1
           (RStr (ascii_text "a")) Hinit Hindex Hn).
Defined.

(** ** Verification never raises on digests *)

Lemma verify_loop_ascii (proof : list proof_step) :
  Forall (fun s => is_ascii (hash s)) proof ->
  forall current_hash, is_ascii current_hash ->
    exists final, verify_loop current_hash proof = Ok final.
Proof.
  induction 1 as [|s rest Hs _ IH]; intros cur Hcur; cbn [verify_loop].
  - eexists. reflexivity.
  - assert (Hstep : exists next, verify_step cur s = Ok next /\ is_ascii next).
    { unfold verify_step.
      destruct (bool_decide (position s = str_left)).
      - rewrite hash_data_concat by assumption. eexists. split; [reflexivity | apply node_ascii].
      - destruct (bool_decide (position s = str_right)).
        + rewrite hash_data_concat by assumption. eexists.
          split; [reflexivity | apply node_ascii].
        + eexists. split; [reflexivity | assumption]. }
    destruct Hstep as (next & -> & Hnext). cbn [rbind]. apply IH. exact Hnext.
Qed.

(** X12: for a record that can be hashed and a proof whose step hashes are
    ASCII text (as digests are), [verify_proof] returns a boolean for any
    positions and any claimed root: a wrong or malformed proof is answered
    with a value, not an exception. *)
Theorem verify_proof_never_raises_on_ascii (leaf : record)
    (proof : list proof_step) (root : option pystr) :
  hashable leaf ->
  Forall (fun s => is_ascii (hash s)) proof ->
  exists b, verify_proof leaf proof root = Ok b.
Proof.
  intros (h & Hh) Hproof. unfold verify_proof. rewrite Hh. cbn [rbind].
  destruct (verify_loop_ascii proof Hproof h (hash_data_ascii _ _ Hh)) as (final & ->).
  cbn [rbind]. eexists. reflexivity.
Qed.

Lemma verify_proof_never_raises_on_ascii_witness :
  (hashable (RStr (ascii_text "a")) /\
   Forall (fun s => is_ascii (hash s)) malformed_proof) /\
  exists b, verify_proof (RStr (ascii_text "a")) malformed_proof None = Ok b.
Proof.
  assert (Hleaf : hashable (RStr (ascii_text "a"))).
  { eexists. vm_compute. reflexivity. }
  assert (Hproof : Forall (fun s => is_ascii (hash s)) malformed_proof).
  { repeat constructor; vm_compute; discriminate. }
  split; [split; assumption|].
  exact (verify_proof_never_raises_on_ascii (RStr (ascii_text "a"))
           malformed_proof None Hleaf Hproof).
Defined.

Lemma init_succeeds_iff_all_hashable_witness :
  (exists self, __init__ records_abc = Ok self) /\ Forall hashable records_abc.
Proof.
  assert (Hinit : exists self, __init__ records_abc = Ok self).
  { exists tree_abc. vm_compute. reflexivity. }
  split; [exact Hinit|].
  exact (proj1 (init_succeeds_iff_all_hashable records_abc) Hinit).
Defined.

(** ** The integrity check on a tree that was written to *)

(** One iteration of the inner loop of [check_integrity]. *)
Lemma check_nodes_step (self : MerkleTree) (n k : nat) (a b : list pystr)
    (parent : pystr) (rest : list Z) :
  tree self !! n = Some a ->
  tree self !! S n = Some b ->
  Forall is_ascii a ->
  (2 * k < length a)%nat ->
  b !! k = Some parent ->
  exists expected,
    pair_up a !! k = Some expected /\
    check_nodes self (Z.of_nat n) (Z.of_nat (2 * k) :: rest)
    = if bool_decide (expected <> parent) then Ok false
      else check_nodes self (Z.of_nat n) rest.
Proof.
  intros Ha Hb Hascii Hk Hparent.
  destruct (lookup_lt_is_Some_2 a (2 * k)) as [x Hx]; [assumption|].
  pose proof (pair_up_lookup a k x Hx) as Hexpected.
  eexists. split; [exact Hexpected|].
  cbn [check_nodes].
  rewrite (getitem_lookup _ _ _ Ha). cbn [rbind].
  rewrite (getitem_lookup _ _ _ Hx). cbn [rbind].
  assert (Hax : is_ascii x) by (eapply lookup_ascii; eassumption).
  assert (Hright :
    (if Z.of_nat (2 * k) + 1 <? len a then getitem a (Z.of_nat (2 * k) + 1)
     else Ok x) = Ok (default x (a !! (2 * k + 1)%nat)) /\
    is_ascii (default x (a !! (2 * k + 1)%nat))).
  { unfold len. destruct (Z.ltb_spec (Z.of_nat (2 * k) + 1) (Z.of_nat (length a))).
    - destruct (lookup_lt_is_Some_2 a (2 * k + 1)) as [y Hy]; [lia|].
      rewrite Hy. cbn [from_option id]. split.
      + replace (Z.of_nat (2 * k) + 1) with (Z.of_nat (2 * k + 1)) by lia.
        apply getitem_lookup. exact Hy.
      + eapply lookup_ascii; eassumption.
    - rewrite (lookup_ge_None_2 a (2 * k + 1)) by lia. cbn [from_option].
      split; [reflexivity | assumption]. }
  destruct Hright as [-> Har]. cbn [rbind combine_hashes].
  rewrite hash_data_concat by assumption. cbn [rbind].
  replace (Z.of_nat n + 1) with (Z.of_nat (S n)) by lia.
  rewrite (getitem_lookup _ _ _ Hb). cbn [rbind].
  replace (Z.of_nat (2 * k) / 2) with (Z.of_nat k).
  2:{ rewrite Nat2Z.inj_mul. change (Z.of_nat 2) with 2.
      rewrite Z.mul_comm, Z.div_mul by lia. reflexivity. }
  rewrite (getitem_lookup _ _ _ Hparent). cbn [rbind]. reflexivity.
Qed.

(** With a parent level of the right size and ASCII children, a level is
    checked without raising. *)
Lemma check_nodes_no_raise (self : MerkleTree) (n : nat) (a b : list pystr) :
  tree self !! n = Some a ->
  tree self !! S n = Some b ->
  Forall is_ascii a ->
  length b = ceil_half (length a) ->
  forall positions : list Z,
    Forall (fun i => exists k : nat, i = Z.of_nat (2 * k) /\ (2 * k < length a)%nat)
      positions ->
    exists r, check_nodes self (Z.of_nat n) positions = Ok r.
Proof.
  intros Ha Hb Hascii Hsize positions Hpos.
  induction Hpos as [|i rest (k & -> & Hk) _ (r & IH)]; [eexists; reflexivity|].
  destruct (lookup_lt_is_Some_2 b k) as [parent Hparent].
  { rewrite Hsize. pose proof (ceil_half_bounds (length a)). lia. }
  destruct (check_nodes_step self n k a b parent rest Ha Hb Hascii Hk Hparent)
    as (expected & _ & ->).
  destruct (bool_decide (expected <> parent)); eexists; [reflexivity | exact IH].
Qed.

(** A level whose parent level differs from [pair_up] at one position is
    reported. *)
Lemma check_nodes_detects (self : MerkleTree) (n p : nat) (a : list pystr)
    (value : pystr) :
  tree self !! n = Some a ->
  tree self !! S n = Some (<[p := value]> (pair_up a)) ->
  Forall is_ascii a ->
  pair_up a !! p <> Some value ->
  forall (count j : nat),
    (j <= p < j + count)%nat -> (j + count <= ceil_half (length a))%nat ->
    check_nodes self (Z.of_nat n)
      (map (fun k => 0 + 2 * Z.of_nat k) (seq j count)) = Ok false.
Proof.
  intros Ha Hb Hascii Hdiff count.
  induction count as [|count IH]; intros j Hp Hrange; [lia|].
  cbn [seq map].
  replace (0 + 2 * Z.of_nat j) with (Z.of_nat (2 * j)) by lia.
  pose proof (ceil_half_bounds (length a)) as [_ Hhi].
  assert (Hj : (2 * j < length a)%nat) by lia.
  destruct (lookup_lt_is_Some_2 (<[p := value]> (pair_up a)) j) as [parent Hparent].
  { rewrite length_insert, pair_up_length. lia. }
  destruct (check_nodes_step self n j a _ parent
              (map (fun k => 0 + 2 * Z.of_nat k) (seq (S j) count))
              Ha Hb Hascii Hj Hparent) as (expected & Hexpected & ->).
  destruct (Nat.eq_dec j p) as [-> | Hne].
  - rewrite list_lookup_insert_eq in Hparent
      by (rewrite pair_up_length; lia).
    injection Hparent as <-.
    rewrite bool_decide_eq_true_2; [reflexivity|].
    intros ->. apply Hdiff. exact Hexpected.
  - rewrite list_lookup_insert_ne in Hparent by congruence.
    rewrite bool_decide_eq_false_2 by (intros Hbad; apply Hbad; congruence).
    apply IH; lia.
Qed.

Lemma check_levels_detects (self : MerkleTree) (before after : list Z) (level : Z) :
  Forall (fun i => exists current r,
            getitem (tree self) i = Ok current /\
            check_nodes self i (py_range 0 (len current) 2) = Ok r) before ->
  (exists current,
     getitem (tree self) level = Ok current /\
     check_nodes self level (py_range 0 (len current) 2) = Ok false) ->
  check_levels self (before ++ level :: after) = Ok false.
Proof.
  intros Hbefore (current & Hcurrent & Hfalse).
  induction Hbefore as [|i rest (cur & r & Hcur & Hr) _ IH]; cbn [app check_levels].
  - rewrite Hcurrent. cbn [rbind]. rewrite Hfalse. reflexivity.
  - rewrite Hcur. cbn [rbind]. rewrite Hr. cbn [rbind].
    destruct r; [exact IH | reflexivity].
Qed.

Lemma range_levels_down (n m : nat) :
  (1 <= m <= n - 1)%nat ->
  py_range (Z.of_nat n - 2) (-1) (-1)
  = map (fun k => Z.of_nat n - 2 + -1 * Z.of_nat k) (seq 0 (n - 1 - m))
    ++ Z.of_nat (m - 1)
    :: map (fun k => Z.of_nat n - 2 + -1 * Z.of_nat k) (seq (S (n - 1 - m)) (m - 1)).
Proof.
  intros Hm. unfold py_range. change (0 <? -1) with false. cbv iota.
  change (- -1) with 1. rewrite Z.div_1_r.
  replace (Z.to_nat (Z.of_nat n - 2 - -1 - -1 - 1)) with ((n - 1 - m) + S (m - 1))%nat
    by lia.
  rewrite seq_app, map_app. cbn [seq map Nat.add]. f_equal. f_equal. lia.
Qed.

Lemma py_range_pairs (n : nat) :
  py_range 0 (Z.of_nat n) 2
  = map (fun k => 0 + 2 * Z.of_nat k) (seq 0 (ceil_half n)).
Proof.
  unfold py_range. change (0 <? 2) with true. cbv iota.
  rewrite range_pairs_count. reflexivity.
Qed.

(** X13: if one stored node above the leaf level of a constructed tree is
    overwritten with a different ASCII string (another digest, say),
    [check_integrity] returns False. *)
Theorem check_integrity_detects_overwritten_node (data_list : list record)
    (self : MerkleTree) (level position : nat) (nodes : list pystr)
    (original value : pystr) :
  __init__ data_list = Ok self ->
  (1 <= level)%nat ->
  tree self !! level = Some nodes ->
  nodes !! position = Some original ->
  value <> original ->
  is_ascii value ->
  check_integrity (overwrite_node self level position value) = Ok false.
Proof.
  intros Hinit Hlevel Hnodes Horiginal Hvalue Hascii_value.
  destruct (init_inv _ _ Hinit) as (_ & _ & Hascii & Hbuilt).
  pose proof (built_ascii _ _ Hbuilt Hascii) as Hall.
  pose proof (lookup_lt_Some _ _ _ Hnodes) as Hlt.
  set (self' := overwrite_node self level position value).
  assert (Htree' : tree self' =
    alter (fun nodes => <[position := value]> nodes) level (tree self)) by reflexivity.
  assert (Hsame : forall j, j <> level -> tree self' !! j = tree self !! j).
  { intros j Hj. rewrite Htree'. apply list_lookup_alter_ne. congruence. }
  assert (Hchanged : tree self' !! level = Some (<[position := value]> nodes)).
  { rewrite Htree', list_lookup_alter_eq, Hnodes. reflexivity. }
  unfold check_integrity. unfold len at 1.
  rewrite Htree', length_alter.
  rewrite (range_levels_down (length (tree self)) level) by lia.
  apply check_levels_detects.
  - apply List.Forall_forall. intros i Hi.
    apply List.in_map_iff in Hi. destruct Hi as (k & <- & Hk).
    apply List.in_seq in Hk.
    set (j := (length (tree self) - 2 - k)%nat).
    replace (Z.of_nat (length (tree self)) - 2 + -1 * Z.of_nat k)
      with (Z.of_nat j) by (unfold j; lia).
    assert (Hj : (level <= j /\ S j < length (tree self))%nat) by (unfold j; lia).
    destruct (lookup_lt_is_Some_2 (tree self) j) as [a Ha]; [lia|].
    destruct (lookup_lt_is_Some_2 (tree self) (S j)) as [b Hb]; [lia|].
    destruct (built_consecutive _ _ Hbuilt _ _ _ Ha Hb) as [-> _].
    assert (Ha_ascii : Forall is_ascii a).
    { rewrite List.Forall_forall in Hall. apply Hall, list_elem_of_In.
      eapply list_elem_of_lookup_2. exact Ha. }
    assert (Hcur : exists current,
      tree self' !! j = Some current /\ Forall is_ascii current /\
      length current = length a).
    { destruct (Nat.eq_dec j level) as [-> | Hne].
      - exists (<[position := value]> nodes).
        assert (a = nodes) as -> by congruence.
        split; [assumption|]. split; [apply Forall_insert; assumption|].
        apply length_insert.
      - exists a. split; [rewrite Hsame by assumption; assumption|].
        split; [assumption | reflexivity]. }
    destruct Hcur as (current & Hcurrent & Hcur_ascii & Hcur_len).
    destruct (check_nodes_no_raise self' j current (pair_up a)) with
      (positions := py_range 0 (len current) 2) as (r & Hr).
    + exact Hcurrent.
    + rewrite Hsame by lia. exact Hb.
    + exact Hcur_ascii.
    + rewrite pair_up_length, Hcur_len. reflexivity.
    + apply py_range_even_positions.
    + exists current, r. split; [apply getitem_lookup; assumption | exact Hr].
  - destruct (lookup_lt_is_Some_2 (tree self) (level - 1)) as [a Ha]; [lia|].
    assert (Hup : tree self !! S (level - 1) = Some nodes).
    { replace (S (level - 1)) with level by lia. exact Hnodes. }
    destruct (built_consecutive _ _ Hbuilt _ _ _ Ha Hup) as [Hpair _].
    exists a. split.
    + apply getitem_lookup. rewrite Hsame by lia. exact Ha.
    + unfold len. rewrite py_range_pairs.
      apply (check_nodes_detects self' (level - 1) position a value).
      * rewrite Hsame by lia. exact Ha.
      * replace (S (level - 1)) with level by lia.
        rewrite Hchanged, Hpair. reflexivity.
      * rewrite List.Forall_forall in Hall. apply Hall, list_elem_of_In.
        eapply list_elem_of_lookup_2. exact Ha.
      * rewrite <- Hpair, Horiginal. congruence.
      * pose proof (lookup_lt_Some _ _ _ Horiginal) as Hp.
        rewrite Hpair, pair_up_length in Hp. lia.
      * lia.
Qed.

Lemma check_integrity_detects_overwritten_node_witness :
  (__init__ records_abc = Ok tree_abc /\ (1 <= 1)%nat /\
   (exists nodes original,
      tree tree_abc !! 1%nat = Some nodes /\ nodes !! 1%nat = Some original /\
      SHA256.hexdigest [] <> original) /\
   is_ascii (SHA256.hexdigest [])) /\
  check_integrity (overwrite_node tree_abc 1 1 (SHA256.hexdigest [])) = Ok false.
Proof.
  assert (Hinit : __init__ records_abc = Ok tree_abc) by (vm_compute; reflexivity).
  assert (Hlevel : (1 <= 1)%nat) by lia.
  assert (Hnodes : exists nodes original,
      tree tree_abc !! 1%nat = Some nodes /\ nodes !! 1%nat = Some original /\
      SHA256.hexdigest [] <> original).
  { eexists. eexists. split; [vm_compute; reflexivity|].
    split; [vm_compute; reflexivity|]. vm_compute. discriminate. }
  assert (Hascii : is_ascii (SHA256.hexdigest [])) by apply hexdigest_ascii.
  split; [repeat split; assumption|].
  destruct Hnodes as (nodes & original & Hn & Ho & Hv).
  exact (check_integrity_detects_overwritten_node records_abc tree_abc 1 1
           nodes original (SHA256.hexdigest []) Hinit Hlevel Hn Ho Hv Hascii).
Defined.

(** ** test_immutability at any index *)

Lemma index_in_range {A : Type} (l : list A) (i : Z) :
  - len l <= i < len l ->
  (list_position (length l) i < length l)%nat /\
  (forall x, l !! list_position (length l) i = Some x -> getitem l i = Ok x) /\
  (forall v, setitem l i v = Ok (<[list_position (length l) i := v]> l)).
Proof.
  intros Hi. unfold list_position, getitem, setitem, len in *.
  destruct (Z.ltb_spec i 0).
  - destruct (Z.leb_spec 0 (i + Z.of_nat (length l))); [|lia].
    destruct (Z.ltb_spec (i + Z.of_nat (length l)) (Z.of_nat (length l))); [|lia].
    cbn [andb]. split; [lia|]. split; [|reflexivity].
    intros x ->. reflexivity.
  - destruct (Z.leb_spec 0 i); [|lia].
    destruct (Z.ltb_spec i (Z.of_nat (length l))); [|lia].
    cbn [andb]. split; [lia|]. split; [|reflexivity].
    intros x ->. reflexivity.
Qed.

Lemma index_outside_range {A : Type} (l : list A) (i : Z) :
  i < - len l \/ len l <= i -> getitem l i = Raise IndexError.
Proof.
  intros Hi. unfold getitem, len in *.
  destruct (Z.ltb_spec i 0).
  - destruct (Z.leb_spec 0 (i + Z.of_nat (length l))); [lia | reflexivity].
  - destruct (Z.ltb_spec i (Z.of_nat (length l))); [lia|].
    rewrite andb_false_r. reflexivity.
Qed.

Lemma built_empty (levels : list (list pystr)) : built [] levels -> levels = [[]].
Proof.
  inversion 1 as [? _ | ? above Hlong _]; subst; [reflexivity | simpl in Hlong; lia].
Qed.

(** The value and final state of [test_immutability] on a consistent
    instance, for an index the list accepts and a new value that can be
    hashed. *)
Lemma test_immutability_outcome (self : MerkleTree) (index : Z)
    (new_value : record) (new_leaf : pystr) :
  Forall is_ascii (leaves self) ->
  built (leaves self) (tree self) ->
  _build_tree (leaves self) = Ok (tree self) ->
  - len (leaves self) <= index < len (leaves self) ->
  _hash_data new_value = Ok new_leaf ->
  exists (tree' : list (list pystr)) (root root' : pystr),
    _build_tree (<[list_position (length (leaves self)) index := new_leaf]>
                   (leaves self)) = Ok tree' /\
    last (tree self) = Some [root] /\
    last tree' = Some [root'] /\
    test_immutability index new_value self
    = (Ok (bool_decide (Some root = Some root')), self).
Proof.
  intros Hascii Hbuilt Htree Hindex Hnew.
  set (j := list_position (length (leaves self)) index).
  destruct (index_in_range (leaves self) index Hindex) as (Hj & Hget & Hset).
  fold j in Hj, Hget, Hset.
  assert (Hne : leaves self <> []).
  { destruct (leaves self); [simpl in Hj; lia | congruence]. }
  destruct (get_root_built self Hbuilt Hne) as (root & Hlast & Hroot).
  destruct (lookup_lt_is_Some_2 (leaves self) j Hj) as [original Horig].
  set (leaves' := <[j := new_leaf]> (leaves self)).
  assert (Hascii' : Forall is_ascii leaves').
  { apply Forall_insert; [assumption | eapply hash_data_ascii; eassumption]. }
  destruct (build_tree_built leaves' Hascii') as (tree' & Hbuilt' & Htree').
  assert (Hlen' : length leaves' = length (leaves self)) by apply length_insert.
  assert (Hne' : leaves' <> []).
  { intros Hnil. rewrite Hnil in Hlen'. simpl in Hlen'. lia. }
  set (self' := {| leaves := leaves'; tree := tree' |}).
  destruct (get_root_built self' Hbuilt' Hne') as (root' & Hlast' & Hroot').
  exists tree', root, root'.
  split; [exact Htree'|]. split; [exact Hlast|]. split; [exact Hlast'|].
  unfold test_immutability, mthen, reading, mret.
  rewrite Hroot, (Hget _ Horig), Hnew.
  unfold store_leaf at 1. cbn [leaves tree].
  rewrite Hset. fold leaves'.
  unfold rebuild at 1. cbn [leaves tree]. rewrite Htree'. fold self'.
  rewrite Hroot'.
  unfold store_leaf at 1. cbn [leaves tree self'].
  assert (Hindex' : - len leaves' <= index < len leaves').
  { unfold len in *. rewrite Hlen'. exact Hindex. }
  destruct (index_in_range leaves' index Hindex') as (_ & _ & Hset').
  rewrite Hset', Hlen'. fold j.
  unfold leaves'. rewrite list_insert_insert_eq, (list_insert_id _ _ _ Horig).
  unfold rebuild. cbn [leaves tree]. rewrite Htree.
  rewrite MerkleTree_eta. reflexivity.
Qed.

(** Before anything is stored, an index the list rejects makes the call
    raise IndexError. *)
Lemma test_immutability_bad_index (self : MerkleTree) (index : Z)
    (new_value : record) :
  built (leaves self) (tree self) ->
  index < - len (leaves self) \/ len (leaves self) <= index ->
  test_immutability index new_value self = (Raise IndexError, self).
Proof.
  intros Hbuilt Hindex.
  unfold test_immutability, mthen, reading.
  destruct (leaves self) as [|x xs] eqn:Hleaves.
  - apply built_empty in Hbuilt. unfold get_root. rewrite Hbuilt. reflexivity.
  - assert (Hne : leaves self <> []) by (rewrite Hleaves; discriminate).
    rewrite <- Hleaves in Hbuilt.
    destruct (get_root_built self Hbuilt Hne) as (root & _ & ->).
    rewrite <- Hleaves. rewrite index_outside_range; [reflexivity|].
    rewrite Hleaves. exact Hindex.
Qed.

Lemma test_immutability_unhashable (self : MerkleTree) (index : Z)
    (new_value : record) (e : exn) :
  built (leaves self) (tree self) ->
  - len (leaves self) <= index < len (leaves self) ->
  _hash_data new_value = Raise e ->
  test_immutability index new_value self = (Raise e, self).
Proof.
  intros Hbuilt Hindex Hnew.
  destruct (index_in_range (leaves self) index Hindex) as (Hj & Hget & _).
  assert (Hne : leaves self <> []).
  { destruct (leaves self); [simpl in Hj; lia | congruence]. }
  destruct (get_root_built self Hbuilt Hne) as (root & _ & Hroot).
  destruct (lookup_lt_is_Some_2 (leaves self) _ Hj) as [original Horig].
  unfold test_immutability, mthen, reading.
  rewrite Hroot, (Hget _ Horig), Hnew. reflexivity.
Qed.

(** X14: on a constructed tree [test_immutability] leaves the instance as
    it was for every index and every new value.  It raises IndexError for
    an index outside [-n, n) whatever the new value is, and it accepts a
    negative index in [-n, 0), which counts from the end. *)
Theorem test_immutability_any_index (data_list : list record)
    (self : MerkleTree) (index : Z) (new_value : record) :
  __init__ data_list = Ok self ->
  snd (test_immutability index new_value self) = self /\
  (index < - len (leaves self) \/ len (leaves self) <= index ->
   fst (test_immutability index new_value self) = Raise IndexError) /\
  (- len (leaves self) <= index < len (leaves self) ->
   hashable new_value ->
   exists b, fst (test_immutability index new_value self) = Ok b).
Proof.
  intros Hinit.
  destruct (init_inv _ _ Hinit) as (_ & Htree & Hascii & Hbuilt).
  assert (Hout : index < - len (leaves self) \/ len (leaves self) <= index ->
                 test_immutability index new_value self = (Raise IndexError, self)).
  { apply test_immutability_bad_index. exact Hbuilt. }
  assert (Hin : - len (leaves self) <= index < len (leaves self) ->
                exists r, test_immutability index new_value self = (r, self) /\
                          (hashable new_value -> exists b, r = Ok b)).
  { intros Hindex. destruct (_hash_data new_value) as [h|e] eqn:Hnew.
    - destruct (test_immutability_outcome self index new_value h
                  Hascii Hbuilt Htree Hindex Hnew)
        as (tree' & root & root' & _ & _ & _ & ->).
      eexists. split; [reflexivity|]. intros _. eexists. reflexivity.
    - rewrite (test_immutability_unhashable self index new_value e
                 Hbuilt Hindex Hnew).
      eexists. split; [reflexivity|]. intros (h & Hh). congruence. }
  split; [|split].
  - destruct (Z.lt_ge_cases index (- len (leaves self))) as [|Hlo];
      [rewrite Hout by (left; assumption); reflexivity|].
    destruct (Z.le_gt_cases (len (leaves self)) index) as [|Hhi];
      [rewrite Hout by (right; assumption); reflexivity|].
    destruct Hin as (r & -> & _); [lia | reflexivity].
  - intros Hindex. rewrite (Hout Hindex). reflexivity.
  - intros Hindex Hnew. destruct (Hin Hindex) as (r & -> & Hr).
    cbn [fst]. apply Hr, Hnew.
Qed.

Lemma test_immutability_any_index_witness :
  __init__ records_abc = Ok tree_abc /\
  snd (test_immutability (-1) (RStr (ascii_text "z")) tree_abc) = tree_abc /\
  fst (test_immutability 3 (RDict dict_ab) tree_abc) = Raise IndexError /\
  exists b, fst (test_immutability (-1) (RStr (ascii_text "z")) tree_abc) = Ok b.
Proof.
  assert (Hinit : __init__ records_abc = Ok tree_abc) by (vm_compute; reflexivity).
  split; [assumption|]. split; [|split].
  - apply (proj1 (test_immutability_any_index records_abc tree_abc (-1)
                    (RStr (ascii_text "z")) Hinit)).
  - apply (proj1 (proj2 (test_immutability_any_index records_abc tree_abc 3
                           (RDict dict_ab) Hinit))).
    right. evaluate.
  - apply (proj2 (proj2 (test_immutability_any_index records_abc tree_abc (-1)
                           (RStr (ascii_text "z")) Hinit))).
    + evaluate.
    + eexists. vm_compute. reflexivity.
Defined.

(** X15: substituting for a leaf a record with the digest that is already
    stored there, for instance the record itself, makes
    [test_immutability] return True. *)
Theorem test_immutability_same_digest (data_list : list record)
    (self : MerkleTree) (index : Z) (new_value : record) (stored : pystr) :
  __init__ data_list = Ok self ->
  - len (leaves self) <= index < len (leaves self) ->
  leaves self !! list_position (length (leaves self)) index = Some stored ->
  _hash_data new_value = Ok stored ->
  fst (test_immutability index new_value self) = Ok true.
Proof.
  intros Hinit Hindex Hstored Hnew.
  destruct (init_inv _ _ Hinit) as (_ & Htree & Hascii & Hbuilt).
  destruct (test_immutability_outcome self index new_value stored
              Hascii Hbuilt Htree Hindex Hnew)
    as (tree' & root & root' & Htree' & Hlast & Hlast' & ->).
  rewrite (list_insert_id _ _ _ Hstored) in Htree'.
  assert (tree' = tree self) as -> by congruence.
  assert (root' = root) as -> by congruence.
  cbn [fst]. rewrite bool_decide_eq_true_2 by reflexivity. reflexivity.
Qed.

Lemma test_immutability_same_digest_witness :
  (__init__ records_abc = Ok tree_abc /\
   - len (leaves tree_abc) <= 2 < len (leaves tree_abc) /\
   leaves tree_abc !! list_position (length (leaves tree_abc)) 2
     = Some (SHA256.hexdigest (ascii_text "c")) /\
   _hash_data (RStr (ascii_text "c")) = Ok (SHA256.hexdigest (ascii_text "c"))) /\
  fst (test_immutability 2 (RStr (ascii_text "c")) tree_abc) = Ok true.
Proof.
  assert (Hinit : __init__ records_abc = Ok tree_abc) by (vm_compute; reflexivity).
  assert (Hindex : - len (leaves tree_abc) <= 2 < len (leaves tree_abc)) by evaluate.
  assert (Hstored : leaves tree_abc !! list_position (length (leaves tree_abc)) 2
                    = Some (SHA256.hexdigest (ascii_text "c")))
    by (vm_compute; reflexivity).
  assert (Hnew : _hash_data (RStr (ascii_text "c"))
                 = Ok (SHA256.hexdigest (ascii_text "c")))
    by (vm_compute; reflexivity).
  split; [split; [|split; [|split]]; assumption|].
  exact (test_immutability_same_digest records_abc tree_abc 2
           (RStr (ascii_text "c")) (SHA256.hexdigest (ascii_text "c"))
           Hinit Hindex Hstored Hnew).
Defined.

(** ** Small inputs *)

(** X16: the tree of the empty record list has one (empty) level; its
    integrity check passes, level 0 is the empty list, and every index is
    rejected with IndexError by [get_proof], [find_sibling] and
    [test_immutability], which leaves the instance unchanged. *)
Theorem empty_tree_behaviour (self : MerkleTree) (index : Z) (new_value : record) :
  __init__ [] = Ok self ->
  get_tree_height self = 1 /\
  check_integrity self = Ok true /\
  get_level_nodes self 0 = Ok [] /\
  get_proof self index = Raise IndexError /\
  find_sibling self index = Raise IndexError /\
  test_immutability index new_value self = (Raise IndexError, self).
Proof.
  intros Hinit.
  assert (self = {| leaves := []; tree := [[]] |}) as ->.
  { vm_compute in Hinit. congruence. }
  split; [reflexivity|]. split; [reflexivity|]. split; [reflexivity|].
  split; [|split].
  - unfold get_proof, len. cbn [leaves length]. change (Z.of_nat 0) with 0.
    destruct (Z.ltb_spec index 0); [reflexivity|].
    destruct (Z.leb_spec 0 index); [reflexivity | lia].
  - unfold find_sibling, len. cbn [leaves length]. change (Z.of_nat 0) with 0.
    destruct (Z.ltb_spec index 0); [reflexivity|].
    destruct (Z.leb_spec 0 index); [reflexivity | lia].
  - reflexivity.
Qed.

Lemma empty_tree_behaviour_witness :
  __init__ [] = Ok {| leaves := []; tree := [[]] |} /\
  get_tree_height {| leaves := []; tree := [[]] |} = 1 /\
  get_proof {| leaves := []; tree := [[]] |} 0 = Raise IndexError.
Proof.
  assert (Hinit : __init__ [] = Ok {| leaves := []; tree := [[]] |}) by reflexivity.
  split; [assumption|].
  pose proof (empty_tree_behaviour _ 0 (RStr []) Hinit) as (Hh & _ & _ & Hp & _).
  split; assumption.
Defined.

(** X17: for a single record the root is the record's digest itself (it is
    not hashed again), the tree has one level, and the proof for index 0
    is empty. *)
Theorem single_record_tree (data : record) (h : pystr) :
  _hash_data data = Ok h ->
  exists self,
    __init__ [data] = Ok self /\
    tree self = [[h]] /\
    get_root self = Ok (Some h) /\
    get_proof self 0 = Ok [].
Proof.
  intros Hh.
  exists {| leaves := [h]; tree := [[h]] |}.
  split; [|repeat split].
  unfold __init__. cbn [comprehension]. rewrite Hh. cbn [rbind].
  unfold _build_tree. rewrite build_loop_while. reflexivity.
Qed.

Lemma single_record_tree_witness :
  exists self,
    __init__ [RStr (ascii_text "a")] = Ok self /\
    tree self = [[SHA256.hexdigest (ascii_text "a")]] /\
    get_root self = Ok (Some (SHA256.hexdigest (ascii_text "a"))) /\
    get_proof self 0 = Ok [].
Proof.
  apply (single_record_tree (RStr (ascii_text "a"))).
  vm_compute; reflexivity.
Defined.

(** X18: for two records a, b with digests ha, hb the root is the digest
    of ha + hb; the proof of index 0 is the single step (hb, 'right') and
    the proof of index 1 is the single step (ha, 'left'). *)
Theorem two_records_tree (a b : record) (ha hb : pystr) :
  _hash_data a = Ok ha ->
  _hash_data b = Ok hb ->
  exists self root,
    __init__ [a; b] = Ok self /\
    _hash_data (RStr (ha ++ hb)) = Ok root /\
    get_root self = Ok (Some root) /\
    get_proof self 0 = Ok [{| hash := hb; position := str_right |}] /\
    get_proof self 1 = Ok [{| hash := ha; position := str_left |}].
Proof.
  intros Ha Hb.
  pose proof (hash_data_ascii _ _ Ha) as Haa.
  pose proof (hash_data_ascii _ _ Hb) as Hab.
  assert (Hascii : Forall is_ascii [ha; hb]) by (repeat constructor; assumption).
  destruct (build_tree_built _ Hascii) as (levels & Hbuilt & Htree).
  assert (Hlevels : levels = [[ha; hb]; [node ha hb]]).
  { inversion Hbuilt as [? Hshort | ? above1 _ Hbuilt1]; subst;
      [simpl in Hshort; lia|].
    cbn [pair_up] in Hbuilt1.
    inversion Hbuilt1 as [? _ | ? above2 Hlong _]; subst;
      [reflexivity | simpl in Hlong; lia]. }
  subst levels.
  exists {| leaves := [ha; hb]; tree := [[ha; hb]; [node ha hb]] |}, (node ha hb).
  split; [|split; [|split; [|split]]].
  - unfold __init__. cbn [comprehension]. rewrite Ha, Hb. cbn [rbind].
    rewrite Htree. reflexivity.
  - apply hash_data_concat; assumption.
  - generalize (node ha hb). intros root. reflexivity.
  - generalize (node ha hb). intros root. reflexivity.
  - generalize (node ha hb). intros root. reflexivity.
Qed.

Lemma two_records_tree_witness :
  exists self root,
    __init__ records_ab = Ok self /\
    _hash_data (RStr (SHA256.hexdigest (ascii_text "a")
                        ++ SHA256.hexdigest (ascii_text "b"))) = Ok root /\
    get_root self = Ok (Some root) /\
    get_proof self 0 = Ok [{| hash := SHA256.hexdigest (ascii_text "b");
                              position := str_right |}] /\
    get_proof self 1 = Ok [{| hash := SHA256.hexdigest (ascii_text "a");
                              position := str_left |}].
Proof.
  apply (two_records_tree (RStr (ascii_text "a")) (RStr (ascii_text "b"))).
  - vm_compute; reflexivity.
  - vm_compute; reflexivity.
Defined.

(** ** Two inputs with one root *)

Lemma built_unique (l : list pystr) (levels1 levels2 : list (list pystr)) :
  built l levels1 -> built l levels2 -> levels1 = levels2.
Proof.
  intros H1. revert levels2.
  induction H1 as [l Hshort | l above Hlong _ IH]; intros levels2 H2.
  - inversion H2; subst; [reflexivity | lia].
  - inversion H2 as [? Hshort | ? above2 _ Habove2]; subst; [lia|].
    f_equal. apply IH. exact Habove2.
Qed.

Lemma pair_up_duplicated_last (l : list pystr) (x : pystr) :
  Nat.even (length l) = true ->
  pair_up (l ++ [x; x]) = pair_up (l ++ [x]).
Proof.
  induction l as [|a|a b l IH] using list_pair_ind; intros Heven.
  - reflexivity.
  - discriminate.
  - cbn [app].
    change (pair_up (a :: b :: l ++ [x; x])) with (node a b :: pair_up (l ++ [x; x])).
    change (pair_up (a :: b :: l ++ [x])) with (node a b :: pair_up (l ++ [x])).
    f_equal. apply IH. exact Heven.
Qed.

Lemma comprehension_app {A B : Type} (f : A -> result B) (xs ys : list A) :
  comprehension f (xs ++ ys)
  = do a <- comprehension f xs; do b <- comprehension f ys; Ok (a ++ b).
Proof.
  induction xs as [|x xs IH]; cbn [app comprehension].
  - cbn [rbind]. destruct (comprehension f ys); reflexivity.
  - destruct (f x) as [y|e]; cbn [rbind]; [|reflexivity].
    rewrite IH. destruct (comprehension f xs) as [a|e]; cbn [rbind]; [|reflexivity].
    destruct (comprehension f ys); reflexivity.
Qed.

(** X19: when an odd number (at least three) of records is given, the
    list with a copy of the last record appended yields the same levels
    above the leaves and the same root: the self-pairing of the last node
    cannot be told from a real duplicate. *)
Theorem duplicated_last_record_same_root (before : list record) (last_record : record)
    (self : MerkleTree) :
  before <> [] ->
  Nat.even (length before) = true ->
  __init__ (before ++ [last_record]) = Ok self ->
  exists self2,
    __init__ (before ++ [last_record; last_record]) = Ok self2 /\
    tail (tree self2) = tail (tree self) /\
    get_root self2 = get_root self.
Proof.
  intros Hne Heven Hinit.
  destruct (init_inv _ _ Hinit) as (Hleaves & _ & Hascii & Hbuilt).
  rewrite comprehension_app in Hleaves.
  inv_bind Hleaves. inv_bind Hleaves. injection Hleaves as Hleaves.
  cbn [comprehension] in Ha0. inv_bind Ha0. injection Ha0 as <-.
  rename a into hs. rename a1 into h.
  match goal with
  | H : _hash_data last_record = Ok _ |- _ => rename H into Hlast
  end.
  pose proof (comprehension_length _ _ _ Ha) as Hlen.
  assert (Hlong : (1 < length (hs ++ [h]))%nat).
  { rewrite length_app, Hlen. simpl.
    destruct before as [|x [|y before]]; [congruence | discriminate | simpl; lia]. }
  assert (Hascii2 : Forall is_ascii (hs ++ [h; h])).
  { rewrite <- Hleaves in Hascii. apply Forall_app in Hascii.
    destruct Hascii as [Hhs Hh]. apply Forall_app. split; [assumption|].
    inversion Hh; subst. repeat constructor; assumption. }
  destruct (build_tree_built _ Hascii2) as (levels2 & Hbuilt2 & Htree2).
  exists {| leaves := hs ++ [h; h]; tree := levels2 |}.
  assert (Htail : tail levels2 = tail (tree self)).
  { rewrite <- Hleaves in Hbuilt.
    inversion Hbuilt as [? Hshort | ? above _ Habove Heq1 Heq2]; [lia|].
    inversion Hbuilt2 as [? Hshort | ? above2 _ Habove2];
      [rewrite length_app in Hshort; simpl in Hshort; lia|].
    subst. cbn [tail].
    rewrite pair_up_duplicated_last in Habove2 by (rewrite Hlen; exact Heven).
    eapply built_unique; eassumption. }
  split; [|split].
  - unfold __init__. rewrite comprehension_app, Ha. cbn [rbind comprehension].
    rewrite Hlast. cbn [rbind]. rewrite Htree2. reflexivity.
  - exact Htail.
  - unfold get_root. cbn [tree].
    destruct (built_head _ _ Hbuilt) as (above & Habove).
    destruct (built_head _ _ Hbuilt2) as (above2 & ->).
    rewrite Habove in Htail |- *. cbn [tail] in Htail. subst above2.
    assert (Hnonempty : above <> []).
    { rewrite Habove in Hbuilt. rewrite <- Hleaves in Hbuilt.
      inversion Hbuilt as [? Hshort | ? ? _ Hup]; [lia|].
      subst. apply built_head in Hup. destruct Hup as (rest & ->). discriminate. }
    destruct above as [|level1 rest]; [congruence|].
    unfold getitem, len. cbn [length].
    change (-1 <? 0) with true. cbv iota.
    replace (-1 + Z.of_nat (S (S (length rest)))) with (Z.of_nat (S (length rest))) by lia.
    rewrite Nat2Z.id. cbn [lookup list_lookup].
    destruct (Z.leb_spec 0 (Z.of_nat (S (length rest)))); [|lia].
    destruct (Z.ltb_spec (Z.of_nat (S (length rest))) (Z.of_nat (S (S (length rest)))));
      [|lia].
    reflexivity.
Qed.

Lemma duplicated_last_record_same_root_witness :
  (records_ab <> [] /\ Nat.even (length records_ab) = true /\
   __init__ (records_ab ++ [RStr (ascii_text "c")]) = Ok tree_abc) /\
  exists self2,
    __init__ (records_ab ++ [RStr (ascii_text "c"); RStr (ascii_text "c")])
      = Ok self2 /\
    tail (tree self2) = tail (tree tree_abc) /\
    get_root self2 = get_root tree_abc.
Proof.
  assert (Hne : records_ab <> []) by discriminate.
  assert (Heven : Nat.even (length records_ab) = true) by reflexivity.
  assert (Hinit : __init__ (records_ab ++ [RStr (ascii_text "c")]) = Ok tree_abc)
    by (vm_compute; reflexivity).
  split; [split; [|split]; assumption|].
  exact (duplicated_last_record_same_root records_ab (RStr (ascii_text "c"))
           tree_abc Hne Heven Hinit).
Defined.

(** ** Text that cannot be encoded *)

Lemma utf8_codepoint_ok (c : Z) :
  is_codepoint c -> ~ is_surrogate c -> exists b, utf8_codepoint c = Ok b.
Proof.
  unfold is_codepoint, is_surrogate, utf8_codepoint. intros Hc Hs.
  destruct (Z.ltb_spec c 128).
  { destruct (Z.leb_spec 0 c); [|lia]. eexists. reflexivity. }
  rewrite andb_false_r. destruct (Z.ltb_spec c 2048).
  { destruct (Z.leb_spec 128 c); [|lia]. eexists. reflexivity. }
  rewrite andb_false_r. destruct (Z.ltb_spec c 55296).
  { destruct (Z.leb_spec 2048 c); [|lia]. eexists. reflexivity. }
  rewrite andb_false_r. cbn [orb]. destruct (Z.ltb_spec c 65536).
  { destruct (Z.leb_spec 57344 c); [|lia]. eexists. reflexivity. }
  rewrite andb_false_r.
  destruct (Z.leb_spec 65536 c); [|lia].
  destruct (Z.ltb_spec c 1114112); [|lia].
  eexists. reflexivity.
Qed.

Lemma utf8_codepoint_surrogate (c : Z) :
  is_surrogate c -> utf8_codepoint c = Raise UnicodeEncodeError.
Proof.
  unfold is_surrogate, utf8_codepoint. intros Hs.
  destruct (Z.ltb_spec c 128); [lia|]. rewrite andb_false_r.
  destruct (Z.ltb_spec c 2048); [lia|]. rewrite andb_false_r.
  destruct (Z.ltb_spec c 55296); [lia|]. rewrite andb_false_r.
  destruct (Z.leb_spec 57344 c); [lia|]. cbn [andb orb].
  destruct (Z.leb_spec 65536 c); [lia|]. reflexivity.
Qed.

Lemma utf8_codepoint_exception (c : Z) (e : exn) :
  utf8_codepoint c = Raise e -> e = UnicodeEncodeError.
Proof.
  unfold utf8_codepoint.
  repeat match goal with
         | |- (if ?b then _ else _) = _ -> _ => destruct b
         end; congruence.
Qed.

Lemma utf8_encode_surrogate (s : pystr) :
  Exists is_surrogate s -> utf8_encode s = Raise UnicodeEncodeError.
Proof.
  induction 1 as [c s Hc | c s _ IH]; cbn [utf8_encode].
  - rewrite utf8_codepoint_surrogate by assumption. reflexivity.
  - destruct (utf8_codepoint c) as [b|e] eqn:Hb; cbn [rbind].
    + rewrite IH. reflexivity.
    + f_equal. eapply utf8_codepoint_exception. exact Hb.
Qed.

Lemma utf8_encode_ok (s : pystr) :
  Forall (fun c => is_codepoint c /\ ~ is_surrogate c) s ->
  exists b, utf8_encode s = Ok b.
Proof.
  induction 1 as [|c s [Hc Hs] _ (bs & IH)]; cbn [utf8_encode].
  - eexists. reflexivity.
  - destruct (utf8_codepoint_ok c Hc Hs) as (b & ->). rewrite IH.
    eexists. reflexivity.
Qed.

(** X20: a [str] record can be hashed exactly when none of its code points
    is a surrogate; with a surrogate in it [_hash_data] raises
    UnicodeEncodeError (and so does the constructor). *)
Theorem hash_data_str_surrogates (s : pystr) :
  Forall is_codepoint s ->
  (hashable (RStr s) <-> Forall (fun c => ~ is_surrogate c) s) /\
  (Exists is_surrogate s -> _hash_data (RStr s) = Raise UnicodeEncodeError).
Proof.
  intros Hvalid.
  assert (Hraise : Exists is_surrogate s ->
                   _hash_data (RStr s) = Raise UnicodeEncodeError).
  { intros Hs. unfold _hash_data. rewrite utf8_encode_surrogate by assumption.
    reflexivity. }
  split; [|exact Hraise]. split.
  - intros (h & Hh). apply List.Forall_forall. intros c Hc Hs.
    assert (Hex : Exists is_surrogate s) by (apply List.Exists_exists; eauto).
    rewrite (Hraise Hex) in Hh. discriminate.
  - intros Hnone.
    destruct (utf8_encode_ok s) as (b & Hb).
    { rewrite List.Forall_forall in *. intros c Hc. split; auto. }
    unfold hashable, _hash_data. rewrite Hb. eexists. reflexivity.
Qed.

Lemma hash_data_str_surrogates_witness :
  (Forall is_codepoint [97; 0xd800] /\ Exists is_surrogate [97; 0xd800]) /\
  _hash_data (RStr [97; 0xd800]) = Raise UnicodeEncodeError.
Proof.
  assert (Hvalid : Forall is_codepoint [97; 0xd800]).
  { repeat constructor; vm_compute; discriminate. }
  assert (Hsurrogate : Exists is_surrogate [97; 0xd800]).
  { right. left. vm_compute. split; discriminate. }
  split; [split; assumption|].
  exact (proj2 (hash_data_str_surrogates [97; 0xd800] Hvalid) Hsurrogate).
Defined.

(** ** The serialisation of mappings *)

Lemma str_leb_total (a b : pystr) : str_leb a b = false -> str_leb b a = true.
Proof.
  revert b. induction a as [|x a IH]; intros [|y b]; cbn [str_leb];
    try discriminate; try reflexivity.
  destruct (Z.ltb_spec x y); [discriminate|].
  destruct (Z.ltb_spec y x); [reflexivity|]. apply IH.
Qed.

Lemma str_leb_antisym (a b : pystr) :
  str_leb a b = true -> str_leb b a = true -> a = b.
Proof.
  revert b. induction a as [|x a IH]; intros [|y b]; cbn [str_leb];
    try discriminate; try reflexivity.
  destruct (Z.ltb_spec x y), (Z.ltb_spec y x); try discriminate; try lia.
  intros Hab Hba. f_equal; [lia | apply IH; assumption].
Qed.

Lemma str_leb_trans (a b c : pystr) :
  str_leb a b = true -> str_leb b c = true -> str_leb a c = true.
Proof.
  revert b c. induction a as [|x a IH]; intros [|y b] [|z c]; cbn [str_leb];
    try discriminate; try reflexivity.
  destruct (Z.ltb_spec x y), (Z.ltb_spec y x), (Z.ltb_spec y z), (Z.ltb_spec z y),
    (Z.ltb_spec x z), (Z.ltb_spec z x);
    try discriminate; try reflexivity; try lia.
  apply IH.
Qed.

(** Inserting two items with different keys gives the same list in either
    order. *)
Lemma insert_item_comm (x y : pystr * jvalue) (items : list (pystr * jvalue)) :
  fst x <> fst y ->
  insert_item x (insert_item y items) = insert_item y (insert_item x items).
Proof.
  intros Hkeys.
  assert (Hxy : str_leb (fst x) (fst y) = true -> str_leb (fst y) (fst x) = false).
  { intros H1. destruct (str_leb (fst y) (fst x)) eqn:H2; [|reflexivity].
    exfalso. apply Hkeys, str_leb_antisym; assumption. }
  assert (Hyx : str_leb (fst x) (fst y) = false -> str_leb (fst y) (fst x) = true)
    by apply str_leb_total.
  induction items as [|z items IH]; cbn [insert_item].
  - destruct (str_leb (fst x) (fst y)) eqn:H1.
    + rewrite (Hxy eq_refl). reflexivity.
    + rewrite (Hyx eq_refl). reflexivity.
  - destruct (str_leb (fst y) (fst z)) eqn:Hyz,
             (str_leb (fst x) (fst z)) eqn:Hxz; cbn [insert_item].
    + destruct (str_leb (fst x) (fst y)) eqn:H1.
      * rewrite (Hxy eq_refl), Hyz. reflexivity.
      * rewrite (Hyx eq_refl), Hxz. reflexivity.
    + destruct (str_leb (fst x) (fst y)) eqn:H1.
      * rewrite (str_leb_trans _ _ _ H1 Hyz) in Hxz. discriminate.
      * rewrite Hxz, Hyz. reflexivity.
    + rewrite Hxz. destruct (str_leb (fst y) (fst x)) eqn:H2.
      * rewrite (str_leb_trans _ _ _ H2 Hxz) in Hyz. discriminate.
      * rewrite Hyz. reflexivity.
    + rewrite Hxz, Hyz, IH. reflexivity.
Qed.

(** X21: [json.dumps(d, sort_keys=True)], the text the dict branch of
    [_hash_data] computes, is the same for two mappings that hold the same
    items under distinct keys in different insertion orders. *)
Theorem json_dumps_insertion_order (d1 d2 : pydict) :
  NoDup (map fst d1) ->
  Permutation d1 d2 ->
  json_dumps_sort_keys d1 = json_dumps_sort_keys d2.
Proof.
  intros Hkeys Hperm. unfold json_dumps_sort_keys, sorted_items.
  f_equal. f_equal. f_equal.
  apply (foldr_permutation eq insert_item []); [|exact Hperm].
  intros j1 a1 j2 a2 items Hj H1 H2. apply insert_item_comm.
  intros Hsame. apply Hj.
  apply (NoDup_lookup (map fst d1) j1 j2 (fst a1)); [assumption| |].
  - change (map fst d1) with (fst <$> d1). rewrite list_lookup_fmap, H1. reflexivity.
  - change (map fst d1) with (fst <$> d1). rewrite list_lookup_fmap, H2, Hsame.
    reflexivity.
Qed.

Lemma json_dumps_insertion_order_witness :
  (NoDup (map fst dict_ab) /\ Permutation dict_ab dict_ba) /\
  json_dumps_sort_keys dict_ab = json_dumps_sort_keys dict_ba.
Proof.
  assert (Hkeys : NoDup (map fst dict_ab)).
  { repeat constructor.
    - intros Hin. apply list_elem_of_In in Hin.
      destruct Hin as [Heq | []]. vm_compute in Heq. discriminate.
    - intros Hin. apply list_elem_of_In in Hin. destruct Hin. }
  assert (Hperm : Permutation dict_ab dict_ba) by apply perm_swap.
  split; [split; assumption|].
  exact (json_dumps_insertion_order dict_ab dict_ba Hkeys Hperm).
Defined.

(** ** How many steps a proof has *)

Lemma proof_loop_short (self : MerkleTree) (l : list pystr)
    (levels : list (list pystr)) :
  built l levels ->
  forall (before : list (list pystr)) (i : Z) (proof0 : list proof_step)
         (final : Z * list proof_step),
    tree self = before ++ levels ->
    paired_path levels i = false ->
    for_loop (map (fun k => 0 + 1 * Z.of_nat k)
                  (seq (length before) (length levels - 1)))
      (proof_body self) (i, proof0) = Ok final ->
    (length (snd final) < length proof0 + (length levels - 1))%nat.
Proof.
  induction 1 as [l Hshort | l above Hlong Habove IH];
    intros before i proof0 final Htree Hpath Hloop; [discriminate|].
  destruct (built_head _ _ Habove) as (rest & Hrest).
  rewrite paired_path_cons in Hpath by (rewrite Hrest; discriminate).
  replace (length (l :: above) - 1)%nat with (S (length above - 1)) in *
    by (rewrite Hrest; simpl; lia).
  cbn [seq map for_loop] in Hloop.
  apply rbind_ok_inv in Hloop. destruct Hloop as ([i1 proof1] & Hbody & Hloop).
  unfold proof_body in Hbody.
  replace (0 + 1 * Z.of_nat (length before)) with (Z.of_nat (length before))
    in Hbody by lia.
  rewrite (getitem_lookup (tree self) (length before) l) in Hbody
    by (rewrite Htree; apply list_lookup_middle; reflexivity).
  cbn [rbind] in Hbody.
  destruct (Z.lxor i 1 <? len l) eqn:Hsib.
  - cbn [andb] in Hpath.
    inv_bind Hbody. inv_bind Ha. injection Ha as <-. injection Hbody as <- <-.
    match type of Hloop with
    | for_loop _ _ (_, ?p) = _ =>
        specialize (IH (before ++ [l]) (i / 2) p final)
    end.
    rewrite length_app in IH. cbn [length] in IH.
    replace (length before + 1)%nat with (S (length before)) in IH by lia.
    specialize (IH ltac:(rewrite Htree, <- app_assoc; reflexivity) Hpath Hloop).
    rewrite length_app in IH. cbn [length] in IH. lia.
  - cbn [rbind] in Hbody. injection Hbody as <- <-.
    apply proof_loop_shape in Hloop.
    destruct Hloop as (steps & Hsteps & Hlen & _).
    cbn [snd] in Hsteps. rewrite Hsteps, length_app.
    rewrite length_map, length_seq in Hlen. lia.
Qed.

(** X22: on a constructed tree, the proof returned by [get_proof] has one
    step for every level below the top exactly when the path from the
    index is paired at every level; otherwise it is shorter, a step being
    left out wherever the node is the unpaired last one of its level. *)
Theorem get_proof_full_length_iff_paired (data_list : list record)
    (self : MerkleTree) (index : Z) (proof : list proof_step) :
  __init__ data_list = Ok self ->
  get_proof self index = Ok proof ->
  (len proof = get_tree_height self - 1 <-> paired_path (tree self) index = true) /\
  (paired_path (tree self) index = false -> len proof < get_tree_height self - 1).
Proof.
  intros Hinit Hproof.
  destruct (init_inv _ _ Hinit) as (_ & _ & Hascii & Hbuilt).
  destruct (built_head _ _ Hbuilt) as (above & Habove).
  unfold get_proof in Hproof.
  destruct (Z.ltb_spec index 0); [discriminate|].
  destruct (Z.leb_spec (len (leaves self)) index); [discriminate|].
  cbn [orb] in Hproof. inv_bind Hproof. injection Hproof as <-.
  unfold len in Ha. rewrite range_levels in Ha.
  assert (Hshort : paired_path (tree self) index = false ->
                   len (snd a) < get_tree_height self - 1).
  { intros Hpath.
    pose proof (proof_loop_short self _ _ Hbuilt [] index [] a eq_refl Hpath Ha) as Hlt.
    unfold get_tree_height, len. cbn [length] in Hlt.
    rewrite Habove in *. cbn [length] in *. lia. }
  split; [|exact Hshort]. split.
  - intros Hfull. destruct (paired_path (tree self) index) eqn:Hpath; [reflexivity|].
    specialize (Hshort eq_refl). lia.
  - intros Hpath. unfold len in *.
    destruct (lookup_lt_is_Some_2 (leaves self) (Z.to_nat index)) as [h Hh]; [lia|].
    destruct (proof_loop_verifies self _ _ Hbuilt [] index h [] eq_refl
                Hascii ltac:(lia) Hh Hpath)
      as (i' & steps & root & Hloop & _ & _ & Hlen).
    cbn [length app] in Hloop. rewrite Hloop in Ha. injection Ha as <-.
    cbn [snd]. unfold get_tree_height, len. rewrite Hlen.
    rewrite Habove. cbn [length]. lia.
Qed.

Lemma get_proof_full_length_iff_paired_witness :
  (__init__ records_abc = Ok tree_abc /\
   exists proof, get_proof tree_abc 2 = Ok proof /\
     paired_path (tree tree_abc) 2 = false /\
     len proof < get_tree_height tree_abc - 1).
Proof.
  assert (Hinit : __init__ records_abc = Ok tree_abc) by (vm_compute; reflexivity).
  split; [assumption|].
  eexists. split; [vm_compute; reflexivity|].
  assert (Hpath : paired_path (tree tree_abc) 2 = false) by (vm_compute; reflexivity).
  split; [assumption|].
  apply (proj2 (get_proof_full_length_iff_paired records_abc tree_abc 2 _ Hinit
                  ltac:(vm_compute; reflexivity))).
  exact Hpath.
Defined.
